(** * Perfumes eBay dashboard: the data-cleaning and aggregation core of app.py

    The development embeds the parts of [app.py] that carry semantics:
    [limpiar_numero] (lines 33-38), [cargar_datos] with the start-up guard
    (lines 19-31 and 40-44) and the dataframe expressions that feed the
    metric cards and charts (lines 56-143).

    Conventions of the embedding:
    - a Python [str] is the list of its Unicode code points;
    - a Python exception is the [Raise] branch of [result]; [try]/[except]
      is [try_except];
    - a Python [float] is an IEEE 754 binary64 value, [spec_float] of the
      Standard Library with [prec = 53] and [emax = 1024];
    - a Python [int] is an unbounded [Z]; a pandas column of ints holds
      64-bit integers, and sums over it wrap around. *)

From Stdlib Require Import String Ascii.
From Stdlib Require Import ZArith NArith List Bool Lia.
From Stdlib Require Import Permutation Sorted.
From Stdlib Require Import Floats.SpecFloat.
From Stdlib Require DecimalN.
Import ListNotations.

Local Open Scope Z_scope.

(** ** Python values, exceptions and text *)

Module Py.

Definition str := list N.

(** A string literal of the source, ASCII only. *)
Definition lit (s : string) : str := map N_of_ascii (list_ascii_of_string s).

Lemma str_eq_dec (a b : str) : {a = b} + {a <> b}.
Proof. apply (list_eq_dec N.eq_dec). Defined.

Definition str_eqb (a b : str) : bool :=
  if str_eq_dec a b then true else false.

Inductive exn :=
| ValueError
| KeyError
| FileNotFoundError
| PermissionError
| ParserError.

Inductive result (A : Type) :=
| Ok (a : A)
| Raise (e : exn).
Arguments Ok {A} a.
Arguments Raise {A} e.

Definition bind {A B} (m : result A) (k : A -> result B) : result B :=
  match m with
  | Ok a => k a
  | Raise e => Raise e
  end.

Notation "x <- m ;; k" := (bind m (fun x => k))
  (at level 61, m at next level, right associativity).

(** [try: body except <handles>: handler]. A bare [except:] handles every
    exception: [handles := fun _ => true]. *)
Definition try_except {A} (body : result A) (handles : exn -> bool)
           (handler : result A) : result A :=
  match body with
  | Ok a => Ok a
  | Raise e => if handles e then handler else Raise e
  end.

Definition float := spec_float.
Definition prec : Z := 53.
Definition emax : Z := 1024.

Definition fzero : float := S754_zero false.

Inductive value :=
| PyInt (n : Z)
| PyFloat (f : float).

(** *** Unicode digit tables (Unicode 14, as CPython 3.11 ships them)

    [str.isdecimal] holds on the characters of general category Nd; they
    come in runs whose members count 0..9 from the start of the run.
    [str.isdigit] holds on those and on the characters whose
    Numeric_Type is Digit (superscripts, circled digits, ...). *)

Definition decimal_runs : list (N * N) :=
  [ (0x30, 0x39); (0x660, 0x669); (0x6F0, 0x6F9); (0x7C0, 0x7C9);
    (0x966, 0x96F); (0x9E6, 0x9EF); (0xA66, 0xA6F); (0xAE6, 0xAEF);
    (0xB66, 0xB6F); (0xBE6, 0xBEF); (0xC66, 0xC6F); (0xCE6, 0xCEF);
    (0xD66, 0xD6F); (0xDE6, 0xDEF); (0xE50, 0xE59); (0xED0, 0xED9);
    (0xF20, 0xF29); (0x1040, 0x1049); (0x1090, 0x1099); (0x17E0, 0x17E9);
    (0x1810, 0x1819); (0x1946, 0x194F); (0x19D0, 0x19D9); (0x1A80, 0x1A89);
    (0x1A90, 0x1A99); (0x1B50, 0x1B59); (0x1BB0, 0x1BB9); (0x1C40, 0x1C49);
    (0x1C50, 0x1C59); (0xA620, 0xA629); (0xA8D0, 0xA8D9); (0xA900, 0xA909);
    (0xA9D0, 0xA9D9); (0xA9F0, 0xA9F9); (0xAA50, 0xAA59); (0xABF0, 0xABF9);
    (0xFF10, 0xFF19); (0x104A0, 0x104A9); (0x10D30, 0x10D39);
    (0x11066, 0x1106F); (0x110F0, 0x110F9); (0x11136, 0x1113F);
    (0x111D0, 0x111D9); (0x112F0, 0x112F9); (0x11450, 0x11459);
    (0x114D0, 0x114D9); (0x11650, 0x11659); (0x116C0, 0x116C9);
    (0x11730, 0x11739); (0x118E0, 0x118E9); (0x11950, 0x11959);
    (0x11C50, 0x11C59); (0x11D50, 0x11D59); (0x11DA0, 0x11DA9);
    (0x16A60, 0x16A69); (0x16AC0, 0x16AC9); (0x16B50, 0x16B59);
    (0x1D7CE, 0x1D7FF); (0x1E140, 0x1E149); (0x1E2F0, 0x1E2F9);
    (0x1E950, 0x1E959); (0x1FBF0, 0x1FBF9) ]%N.

Definition digit_only_runs : list (N * N) :=
  [ (0xB2, 0xB3); (0xB9, 0xB9); (0x1369, 0x1371); (0x19DA, 0x19DA);
    (0x2070, 0x2070); (0x2074, 0x2079); (0x2080, 0x2089); (0x2460, 0x2468);
    (0x2474, 0x247C); (0x2488, 0x2490); (0x24EA, 0x24EA); (0x24F5, 0x24FD);
    (0x24FF, 0x24FF); (0x2776, 0x277E); (0x2780, 0x2788); (0x278A, 0x2792);
    (0x10A40, 0x10A43); (0x10E60, 0x10E68); (0x11052, 0x1105A);
    (0x1F100, 0x1F10A) ]%N.

Definition in_run (c : N) (r : N * N) : bool :=
  ((fst r <=? c) && (c <=? snd r))%N.

(** [Py_UNICODE_TODECIMAL]: the decimal value of a character, if any. *)
Fixpoint to_decimal_in (runs : list (N * N)) (c : N) : option Z :=
  match runs with
  | [] => None
  | r :: runs' =>
      if in_run c r then Some (Z.of_N ((c - fst r) mod 10))
      else to_decimal_in runs' c
  end.

Definition to_decimal (c : N) : option Z := to_decimal_in decimal_runs c.

Definition isdecimal (c : N) : bool :=
  match to_decimal c with Some _ => true | None => false end.

(** [x.isdigit()] on a one-character string. *)
Definition isdigit (c : N) : bool :=
  isdecimal c || existsb (in_run c) digit_only_runs.

Definition dot : N := 46%N.

(** *** [int(s)] and [float(s)] on filtered text

    Both builtins first map every character with a decimal value to its
    ASCII digit and every other non-ASCII character to [?]. The strings
    [limpiar_numero] hands over hold digit characters and dots only
    ([limpio_alphabet] below), so the sign, white space, underscore and
    exponent forms of the literal grammar never arise; any character
    outside that alphabet is answered with [ValueError] here. *)

(** The digits of a decimal numeral, most significant first. *)
Fixpoint decimal_value (acc : Z) (s : str) : option Z :=
  match s with
  | [] => Some acc
  | c :: s' =>
      match to_decimal c with
      | Some d => decimal_value (10 * acc + d) s'
      | None => None
      end
  end.

(** [sys.int_info.default_max_str_digits]: longer decimal numerals are
    refused with [ValueError]. *)
Definition int_max_str_digits : nat := 4300.

Definition py_int (s : str) : result Z :=
  match s with
  | [] => Raise ValueError
  | _ =>
      match decimal_value 0 s with
      | Some n =>
          if (int_max_str_digits <? length s)%nat then Raise ValueError
          else Ok n
      | None => Raise ValueError
      end
  end.

(** Splits at the first dot: the text before it and, when there is a
    dot, the text after it. *)
Fixpoint split_dot (s : str) : str * option str :=
  match s with
  | [] => ([], None)
  | c :: s' =>
      if (c =? dot)%N then ([], Some s')
      else let '(a, b) := split_dot s' in (c :: a, b)
  end.

(** The binary64 value nearest to [m / 10^k] (ties to even), which is
    what the correctly rounded [strtod] behind [float] returns. The
    quotient is rounded once, by [SFdiv] on the two exact integers. *)
Definition float_of_decimal (m : Z) (k : nat) : float :=
  match m with
  | Zpos p =>
      SFdiv prec emax (S754_finite false p 0)
            (S754_finite false (Z.to_pos (10 ^ Z.of_nat k)) 0)
  | _ => fzero
  end.

Definition py_float (s : str) : result float :=
  let '(ent, frac) := split_dot s in
  let frac := match frac with Some f => f | None => [] end in
  match ent ++ frac with
  | [] => Raise ValueError
  | ds =>
      match decimal_value 0 ds with
      | Some m => Ok (float_of_decimal m (length frac))
      | None => Raise ValueError
      end
  end.

End Py.
Import Py.

(** ** Table cells *)

(** A cell of a column that [read_csv] keeps as text: a string, or the
    missing-value marker (NaN) pandas puts where the file has no value. *)
Inductive cell :=
| NA
| Str (s : str).

(** [pd.isna] on a scalar. *)
Definition isna (x : cell) : bool :=
  match x with NA => true | Str _ => false end.

(** [str(texto)] for a cell that is not missing. *)
Definition str_of_cell (x : cell) : str :=
  match x with NA => lit "nan" | Str s => s end.

(** ** limpiar_numero (app.py, lines 33-38) *)

Definition default_value (es_float : bool) : value :=
  if es_float then PyFloat fzero else PyInt 0.

(** [''.join(parts)] for one-character parts. *)
Definition join (parts : list str) : str := concat parts.

(** The [lambda] of line 36. *)
Definition keep (es_float : bool) (x : N) : bool :=
  isdigit x || ((x =? dot)%N && es_float).

Definition limpio (texto : cell) (es_float : bool) : str :=
  join (map (fun x => [x]) (filter (keep es_float) (str_of_cell texto))).

Definition limpiar_numero (texto : cell) (es_float : bool) : result value :=
  if isna texto then Ok (default_value es_float)
  else
    let limpio := limpio texto es_float in
    try_except
      (if es_float then f <- py_float limpio ;; Ok (PyFloat f)
       else n <- py_int limpio ;; Ok (PyInt n))
      (fun _ => true)
      (Ok (default_value es_float)).


(** The extraction as the specification words it: ASCII digits, and the
    dot in Float mode, then the same parse with the same default. *)
Definition is_ascii_digit (x : N) : bool := ((48 <=? x) && (x <=? 57))%N.

Definition keep_spec (es_float : bool) (x : N) : bool :=
  is_ascii_digit x || ((x =? dot)%N && es_float).

Definition parse_or_default (es_float : bool) (candidate : str) : value :=
  if es_float then
    match py_float candidate with Ok f => PyFloat f | Raise _ => default_value true end
  else
    match py_int candidate with Ok n => PyInt n | Raise _ => default_value false end.

Definition normalizeNumeric_spec (texto : cell) (es_float : bool) : value :=
  match texto with
  | NA => default_value es_float
  | Str s => parse_or_default es_float (filter (keep_spec es_float) s)
  end.

Definition is_ascii (s : str) : bool := forallb (fun x => (x <? 128)%N) s.

(** What "a value of the declared type, not negative" means for the two
    kinds of result. NaN is not [>= 0]. *)
Definition well_typed (es_float : bool) (v : value) : bool :=
  match v, es_float with
  | PyFloat _, true => true
  | PyInt _, false => true
  | _, _ => false
  end.

Definition nonneg (v : value) : bool :=
  match v with
  | PyInt n => 0 <=? n
  | PyFloat f => SFleb fzero f
  end.

(** ** DataFrames (pandas), as far as lines 19-31 use them *)

(** Column labels in order and the rows, each row holding one cell per
    label. [read_csv] never yields two equal labels. *)
Record DataFrame := {
  columns : list str;
  rows : list (list cell)
}.

Fixpoint distinct (cols : list str) : bool :=
  match cols with
  | [] => true
  | c :: cols' => negb (existsb (str_eqb c) cols') && distinct cols'
  end.

Definition well_formed (df : DataFrame) : bool :=
  forallb (fun r => (List.length r =? List.length (columns df))%nat) (rows df)
  && distinct (columns df).

Fixpoint index_of (c : str) (cols : list str) : option nat :=
  match cols with
  | [] => None
  | c' :: cols' =>
      if str_eqb c c' then Some O
      else match index_of c cols' with Some j => Some (S j) | None => None end
  end.

Definition celda (df : DataFrame) (i j : nat) : cell :=
  nth j (nth i (rows df) []) NA.

Fixpoint set_nth {A} (j : nat) (v : A) (l : list A) : list A :=
  match l, j with
  | [], _ => []
  | _ :: l', O => v :: l'
  | x :: l', S j' => x :: set_nth j' v l'
  end.

(** [df.assign(name=v)]: overwrites the column when the label exists,
    appends it as the last column otherwise. *)
Definition assign (name : str) (v : cell) (df : DataFrame) : DataFrame :=
  match index_of name (columns df) with
  | Some j => {| columns := columns df; rows := map (set_nth j v) (rows df) |}
  | None => {| columns := columns df ++ [name];
               rows := map (fun r => r ++ [v]) (rows df) |}
  end.

(** A row laid out for the labels [to]: cells found by label, NaN where the
    frame has no such column. *)
Definition reindex (from to : list str) (r : list cell) : list cell :=
  map (fun c => match index_of c from with
                | Some j => nth j r NA
                | None => NA
                end) to.

Definition has_label (cols : list str) (c : str) : bool :=
  existsb (str_eqb c) cols.

(** [pd.concat([a, b], ignore_index=True)]: the labels of [a], then those
    of [b] that [a] lacks; the rows of [a], then the rows of [b]. *)
Definition concat2 (a b : DataFrame) : DataFrame :=
  let cols := columns a ++ filter (fun c => negb (has_label (columns a) c)) (columns b) in
  {| columns := cols;
     rows := map (reindex (columns a) cols) (rows a)
             ++ map (reindex (columns b) cols) (rows b) |}.

Fixpoint rename_label (mapping : list (str * str)) (c : str) : str :=
  match mapping with
  | [] => c
  | (old, new) :: mapping' =>
      if str_eqb c old then new else rename_label mapping' c
  end.

(** [df.rename(columns=mapping)]. *)
Definition rename (mapping : list (str * str)) (df : DataFrame) : DataFrame :=
  {| columns := map (rename_label mapping) (columns df); rows := rows df |}.

(** ** cargar_datos (app.py, lines 19-31) *)

(** What [pd.read_csv] answers for each path: the parsed frame, or the
    exception it raises ([FileNotFoundError] when the file is missing,
    another one when it exists but cannot be read or parsed). *)
Definition FileSystem := str -> result DataFrame.

Definition read_csv (fs : FileSystem) (path : str) : result DataFrame := fs path.

Definition mens_csv : str := lit "ebay_mens_perfume.csv".
Definition womens_csv : str := lit "ebay_womens_perfume.csv".
Definition Genero_label : str := lit "Genero".
Definition Hombre : cell := Str (lit "Hombre").
Definition Mujer : cell := Str (lit "Mujer").

Definition renombres : list (str * str) :=
  [ (lit "brand", lit "Marca"); (lit "title", lit "Titulo");
    (lit "price", lit "Precio_Texto"); (lit "available", lit "Disponibles");
    (lit "sold", lit "Vendidos_Texto"); (lit "itemLocation", lit "Ubicacion") ].

Definition is_FileNotFoundError (e : exn) : bool :=
  match e with FileNotFoundError => true | _ => false end.

(** The result is [None] for Python's [None]. The [st.cache_data]
    decorator memoises the call and does not change what it returns. *)
Definition cargar_datos (fs : FileSystem) : result (option DataFrame) :=
  try_except
    (m <- read_csv fs mens_csv ;;
     let df_m := assign Genero_label Hombre m in
     w <- read_csv fs womens_csv ;;
     let df_w := assign Genero_label Mujer w in
     let df := concat2 df_m df_w in
     Ok (Some (rename renombres df)))
    is_FileNotFoundError
    (Ok None).

(** ** The start-up guard (app.py, lines 40-44) *)

Inductive ui_event :=
| st_error (msg : str).

(** How the script stands after line 44: stopped by [st.stop()] with the
    messages shown so far, going on with the loaded frame, or ended by an
    exception nothing caught. *)
Inductive run_state :=
| Stopped (shown : list ui_event)
| Running (df : DataFrame)
| Uncaught (e : exn).

Definition arranque (fs : FileSystem) : run_state :=
  match cargar_datos fs with
  | Ok None => Stopped [st_error (lit "Faltan los archivos CSV.")]
  | Ok (Some df) => Running df
  | Raise e => Uncaught e
  end.

(** ** The normalised table (app.py, lines 46-48) *)

(** One row once [Precio] and [Vendidos] are in place: the columns the
    views read. [Vendidos] holds what [int] returned. pandas keeps the
    column as 64-bit integers as long as every count is below 2^63 (a
    larger one turns the column into another type, which is left out
    here), and sums over it are 64-bit sums: they wrap around past 2^63
    ([sum] and [acumular] below). *)
Record Row := {
  Marca : cell;
  Titulo : cell;
  Precio_Texto : cell;
  Disponibles : cell;
  Vendidos_Texto : cell;
  Ubicacion : cell;
  Genero : cell;
  Precio : float;
  Vendidos : Z
}.

Fixpoint map_result {A B} (f : A -> result B) (l : list A) : result (list B) :=
  match l with
  | [] => Ok []
  | x :: l' => y <- f x ;; ys <- map_result f l' ;; Ok (y :: ys)
  end.

(** ** Selections and sorting (pandas) *)

(** [df[mask]]: the rows whose mask entry is [True], in table order. *)
Fixpoint boolean_index {A} (df : list A) (mask : list bool) : list A :=
  match df, mask with
  | r :: df', b :: mask' =>
      if b then r :: boolean_index df' mask' else boolean_index df' mask'
  | _, _ => []
  end.

(** [column == s], elementwise: a missing value equals nothing. *)
Definition eq_str (s : str) (c : cell) : bool :=
  match c with Str t => str_eqb t s | NA => false end.

(** [column.isin(values)] for a list of strings. *)
Definition isin (values : list str) (c : cell) : bool :=
  match c with Str t => existsb (str_eqb t) values | NA => false end.

(** [df.iloc[indexer]]. The indexers built below stay within the table. *)
Definition take {A} (l : list A) (indexer : list nat) : list A :=
  flat_map (fun i => match nth_error l i with Some x => [x] | None => [] end) indexer.

Definition value_at (xs : list Z) (i : nat) : Z := nth i xs 0.

(** [numpy.argsort(kind='quicksort')], the sort [sort_values] asks for
    when no [kind] is given. Its contract: the answer lists every position
    once, in ascending order of the values. Where equal values end up
    relative to each other is left open (the algorithm is not stable). *)
Class ArgSort := {
  argsort : list Z -> list nat;
  argsort_perm : forall xs, Permutation (argsort xs) (seq 0 (List.length xs));
  argsort_sorted : forall xs, StronglySorted Z.le (map (value_at xs) (argsort xs))
}.

(** [pandas.core.sorting.nargsort(items, ascending=False)] on integers:
    the items and their positions are reversed, sorted ascending, and the
    answer is reversed again. *)
Definition nargsort_desc `{ArgSort} (items : list Z) : list nat :=
  let non_nan_idx := rev (seq 0 (List.length items)) in
  let indexer := map (fun k => nth k non_nan_idx O) (argsort (rev items)) in
  rev indexer.

(** [sort_values(by, ascending=False)]. *)
Definition sort_values_desc `{ArgSort} {A} (by_ : A -> Z) (l : list A) : list A :=
  take l (nargsort_desc (map by_ l)).

(** [head(n)] for a count that is not negative. *)
Definition head {A} (n : nat) (l : list A) : list A := firstn n l.

(** Text order of Python: code point by code point, a prefix first. *)
Fixpoint str_compare (a b : str) : comparison :=
  match a, b with
  | [], [] => Eq
  | [], _ :: _ => Lt
  | _ :: _, [] => Gt
  | x :: a', y :: b' =>
      match (x ?= y)%N with
      | Eq => str_compare a' b'
      | c => c
      end
  end.

(** ** Views over the normalised table *)

(** Line 56. *)
Definition df_global (df : list Row) (genero_filtro : str) : list Row :=
  if str_eqb genero_filtro (lit "Ambos") then df
  else boolean_index df (map (fun r => eq_str genero_filtro (Genero r)) df).

(** *** summaryMetrics (lines 67-71) *)

Record Metrics := {
  count : nat;
  meanPrice : float;
  totalSold : Z;
  distinctBrandCount : nat
}.

Definition float_of_nat (n : nat) : float :=
  binary_normalize prec emax (Z.of_nat n) 0 false.

(** The float sum, added left to right from [0.0]. This is the order
    numpy adds in on a column of fewer than 8 rows; a longer column it
    adds up in several partial sums, and the result may then differ from
    this one in the last bit. *)
Definition sum_float (xs : list float) : float :=
  fold_left (SFadd prec emax) xs fzero.

(** [Series.mean()]: the sum over the count, NaN over no rows. *)
Definition mean (xs : list float) : float :=
  let n := List.length xs in
  if (0 <? n)%nat then SFdiv prec emax (sum_float xs) (float_of_nat n)
  else S754_nan.

(** The 64-bit integer that a value wraps to. *)
Definition int64_wrap (z : Z) : Z := (z + 2 ^ 63) mod 2 ^ 64 - 2 ^ 63.

(** Addition of 64-bit integers. *)
Definition add64 (a b : Z) : Z := int64_wrap (a + b).

(** [Series.sum()] of an int64 column. *)
Definition sum (xs : list Z) : Z := fold_left add64 xs 0.

Definition dropna (col : list cell) : list str :=
  flat_map (fun c => match c with Str s => [s] | NA => [] end) col.

(** [Series.nunique()]: missing values are not counted. *)
Definition nunique (col : list cell) : nat :=
  List.length (nodup str_eq_dec (dropna col)).

Definition summaryMetrics (df : list Row) : Metrics :=
  {| count := List.length df;
     meanPrice := mean (map Precio df);
     totalSold := sum (map Vendidos df);
     distinctBrandCount := nunique (map Marca df) |}.

(** *** topBrandsByVolume (line 104) *)

(** One more row for the running totals, which are kept in ascending
    order of their key. A total starts at 0 and grows by 64-bit additions. *)
Fixpoint acumular (k : str) (v : Z) (g : list (str * Z)) : list (str * Z) :=
  match g with
  | [] => [(k, add64 0 v)]
  | (k', v') :: g' =>
      match str_compare k k' with
      | Lt => (k, add64 0 v) :: g
      | Eq => (k', add64 v' v) :: g'
      | Gt => (k', v') :: acumular k v g'
      end
  end.

Definition acumular_fila (g : list (str * Z)) (r : Row) : list (str * Z) :=
  match Marca r with
  | Str k => acumular k (Vendidos r) g
  | NA => g
  end.

(** [df.groupby('Marca')['Vendidos'].sum()]: rows without a brand belong
    to no group ([dropna=True]); the groups come in ascending order of the
    brand ([sort=True]). *)
Definition groupby_sum (df : list Row) : list (str * Z) :=
  fold_left acumular_fila df [].

Definition topBrandsByVolume `{ArgSort} (df : list Row) (limit : nat) : list (str * Z) :=
  head limit (sort_values_desc snd (groupby_sum df)).

(** *** topProductsForBrand (line 108) *)

Definition topProductsForBrand `{ArgSort} (df : list Row) (marca_sel : str)
           (limit : nat) : list Row :=
  head limit
    (sort_values_desc Vendidos
       (boolean_index df (map (fun r => eq_str marca_sel (Marca r)) df))).

(** *** filterByBrandSubset (line 124) and filterByPriceCeiling (line 143) *)

Definition filterByBrandSubset (df : list Row) (sel : list str) : list Row :=
  boolean_index df (map (fun r => isin sel (Marca r)) df).

(** Lines 123-124: the box plot gets its rows only for a selection that
    is not empty. *)
Definition box_plot_rows (df : list Row) (sel : list str) : option (list Row) :=
  match sel with
  | [] => None
  | _ => Some (filterByBrandSubset df sel)
  end.

Definition filterByPriceCeiling (df : list Row) (ceiling : float) : list Row :=
  boolean_index df (map (fun r => SFltb (Precio r) ceiling) df).

(** Line 143 asks for prices under 300. *)
Definition ceiling_300 : float := binary_normalize prec emax 300 0 false.

(** ** The rankings as the specification words them *)

(** Groups in the order their brand is first met in the table. *)
Fixpoint acumular_first_seen (k : str) (v : Z) (g : list (str * Z)) : list (str * Z) :=
  match g with
  | [] => [(k, v)]
  | (k', v') :: g' =>
      if str_eqb k k' then (k', v' + v) :: g'
      else (k', v') :: acumular_first_seen k v g'
  end.

Definition group_first_seen (df : list Row) : list (str * Z) :=
  fold_left (fun g r => match Marca r with
                        | Str k => acumular_first_seen k (Vendidos r) g
                        | NA => g
                        end) df [].

(** A stable descending sort: among equal keys, the earlier stays first. *)
Fixpoint insert_desc {A} (by_ : A -> Z) (x : A) (l : list A) : list A :=
  match l with
  | [] => [x]
  | y :: l' => if by_ y <=? by_ x then x :: l else y :: insert_desc by_ x l'
  end.

Definition stable_sort_desc {A} (by_ : A -> Z) (l : list A) : list A :=
  fold_right (insert_desc by_) [] l.

Definition topBrandsByVolume_spec (df : list Row) (limit : nat) : list (str * Z) :=
  firstn limit (stable_sort_desc snd (group_first_seen df)).

Definition topProductsForBrand_spec (df : list Row) (marca_sel : str)
           (limit : nat) : list Row :=
  firstn limit
    (stable_sort_desc Vendidos (filter (fun r => eq_str marca_sel (Marca r)) df)).

(** ** Sorts that meet the contract of [argsort] *)

Fixpoint insert_index (before : nat -> nat -> bool) (i : nat) (l : list nat) : list nat :=
  match l with
  | [] => [i]
  | j :: l' => if before i j then i :: l else j :: insert_index before i l'
  end.

Definition insertion_argsort (before : list Z -> nat -> nat -> bool) (xs : list Z) : list nat :=
  fold_right (insert_index (before xs)) [] (seq 0 (List.length xs)).

(** Equal values keep their order: the insertion sort numpy runs on short
    arrays. *)
Definition before_stable (xs : list Z) (i j : nat) : bool :=
  value_at xs i <=? value_at xs j.

(** *** numpy's quicksort for index arrays

    The routine [aquicksort_] of numpy's [npysort/quicksort.cpp], which
    [argsort(kind='quicksort')] runs on an int64 column where numpy
    dispatches to no vectorised sort, and [aheapsort_] of
    [npysort/heapsort.cpp], which it falls back on. [v] holds the values,
    [tosort] the positions being arranged; the pointers [pl], [pr], [pi],
    [pj] into [tosort] are offsets from its start. The loops of the C code
    are recursions on a count of steps that the length of the array
    bounds. *)

Definition SMALL_QUICKSORT : nat := 16.

(** [*p] and [*p = x] for a pointer into [tosort]. *)
Definition deref (tosort : list nat) (p : nat) : nat := nth p tosort O.

Definition assign_at (tosort : list nat) (p x : nat) : list nat := set_nth p x tosort.

Definition INTP_SWAP (tosort : list nat) (p q : nat) : list nat :=
  assign_at (assign_at tosort p (deref tosort q)) q (deref tosort p).

(** [v[*p]]. *)
Definition key (v : list Z) (tosort : list nat) (p : nat) : Z :=
  value_at v (deref tosort p).

(** The swap of [*p] and [*q] in case [less(v[*p], v[*q])]. *)
Definition swap_if_less (v : list Z) (tosort : list nat) (p q : nat) : list nat :=
  if key v tosort p <? key v tosort q then INTP_SWAP tosort p q else tosort.

(** [do { ++pi; } while (less(v[*pi], vp))]. *)
Fixpoint scan_up (steps : nat) (v : list Z) (vp : Z) (tosort : list nat) (pi : nat) : nat :=
  match steps with
  | O => pi
  | S steps' =>
      let pi := S pi in
      if key v tosort pi <? vp then scan_up steps' v vp tosort pi else pi
  end.

(** [do { --pj; } while (less(vp, v[*pj]))]. *)
Fixpoint scan_down (steps : nat) (v : list Z) (vp : Z) (tosort : list nat) (pj : nat) : nat :=
  match steps with
  | O => pj
  | S steps' =>
      let pj := Nat.pred pj in
      if vp <? key v tosort pj then scan_down steps' v vp tosort pj else pj
  end.

(** The [for (;;)] loop of the partition; it hands back [pi]. *)
Fixpoint partition_loop (steps : nat) (v : list Z) (vp : Z) (tosort : list nat)
         (pi pj : nat) : list nat * nat :=
  match steps with
  | O => (tosort, pi)
  | S steps' =>
      let pi := scan_up (List.length tosort) v vp tosort pi in
      let pj := scan_down (List.length tosort) v vp tosort pj in
      if (pj <=? pi)%nat then (tosort, pi)
      else partition_loop steps' v vp (INTP_SWAP tosort pi pj) pi pj
  end.

(** [while (pj > pl && less(vp, v[*pk])) { *pj-- = *pk--; }], with [pk]
    one below [pj] throughout; it hands back [pj]. *)
Fixpoint shift_up (steps : nat) (v : list Z) (vp : Z) (tosort : list nat)
         (pl pj : nat) : list nat * nat :=
  match steps with
  | O => (tosort, pj)
  | S steps' =>
      if (pl <? pj)%nat && (vp <? key v tosort (Nat.pred pj))
      then shift_up steps' v vp (assign_at tosort pj (deref tosort (Nat.pred pj)))
                    pl (Nat.pred pj)
      else (tosort, pj)
  end.

(** The insertion sort of the range from [pl] to [pr]:
    [for (pi = pl + 1; pi <= pr; ++pi)]. *)
Fixpoint insertion_sort (steps : nat) (v : list Z) (tosort : list nat)
         (pl pr pi : nat) : list nat :=
  match steps with
  | O => tosort
  | S steps' =>
      if (pi <=? pr)%nat then
        let vi := deref tosort pi in
        let vp := value_at v vi in
        let '(tosort, pj) := shift_up (List.length tosort) v vp tosort pl pi in
        insertion_sort steps' v (assign_at tosort pj vi) pl pr (S pi)
      else tosort
  end.

(** The inner loop of the heap sort, [for (...; j <= n;)], on the array
    [a] that starts one place before [tosort + pl]; it hands back [i]. *)
Fixpoint sift_down (steps : nat) (v : list Z) (tosort : list nat) (pl : nat)
         (tmp n i j : nat) : list nat * nat :=
  match steps with
  | O => (tosort, i)
  | S steps' =>
      if (j <=? n)%nat then
        let j := if (j <? n)%nat
                    && (key v tosort (pl + j - 1) <? key v tosort (pl + (j + 1) - 1))
                 then (j + 1)%nat else j in
        if value_at v tmp <? key v tosort (pl + j - 1)
        then sift_down steps' v
                       (assign_at tosort (pl + i - 1) (deref tosort (pl + j - 1)))
                       pl tmp n j (j + j)
        else (tosort, i)
      else (tosort, i)
  end.

(** [for (l = n >> 1; l > 0; --l)]. *)
Fixpoint build_heap (steps : nat) (v : list Z) (tosort : list nat) (pl n l : nat) : list nat :=
  match steps with
  | O => tosort
  | S steps' =>
      if (0 <? l)%nat then
        let tmp := deref tosort (pl + l - 1) in
        let '(tosort, i) := sift_down n v tosort pl tmp n l (2 * l) in
        build_heap steps' v (assign_at tosort (pl + i - 1) tmp) pl n (Nat.pred l)
      else tosort
  end.

(** [for (; n > 1;)]. *)
Fixpoint drain_heap (steps : nat) (v : list Z) (tosort : list nat) (pl n : nat) : list nat :=
  match steps with
  | O => tosort
  | S steps' =>
      if (1 <? n)%nat then
        let tmp := deref tosort (pl + n - 1) in
        let tosort := assign_at tosort (pl + n - 1) (deref tosort (pl + 1 - 1)) in
        let n := Nat.pred n in
        let '(tosort, i) := sift_down n v tosort pl tmp n 1 2 in
        drain_heap steps' v (assign_at tosort (pl + i - 1) tmp) pl n
      else tosort
  end.

(** [aheapsort_(vv, pl, n)]. *)
Definition aheapsort (v : list Z) (tosort : list nat) (pl n : nat) : list nat :=
  drain_heap n v (build_heap n v tosort pl n (n / 2)) pl n.

(** A range put aside, with the depth left for it. *)
Definition qs_stack := list (nat * nat * Z).

(** [while ((pr - pl) > SMALL_QUICKSORT)]: median of three, partition,
    the larger part put on the stack, the smaller one taken up. *)
Fixpoint partition_while (steps : nat) (v : list Z) (tosort : list nat) (pl pr : nat)
         (cdepth : Z) (stack : qs_stack) : list nat * nat * nat * qs_stack :=
  match steps with
  | O => (tosort, pl, pr, stack)
  | S steps' =>
      if (SMALL_QUICKSORT <? pr - pl)%nat then
        let pm := (pl + (pr - pl) / 2)%nat in
        let tosort := swap_if_less v tosort pm pl in
        let tosort := swap_if_less v tosort pr pm in
        let tosort := swap_if_less v tosort pm pl in
        let vp := key v tosort pm in
        let pj := Nat.pred pr in
        let tosort := INTP_SWAP tosort pm pj in
        let '(tosort, pi) := partition_loop (List.length tosort) v vp tosort pl pj in
        let pk := Nat.pred pr in
        let tosort := INTP_SWAP tosort pi pk in
        let cdepth := cdepth - 1 in
        if (pi - pl <? pr - pi)%nat
        then partition_while steps' v tosort pl (Nat.pred pi) cdepth
                             ((S pi, pr, cdepth) :: stack)
        else partition_while steps' v tosort (S pi) pr cdepth
                             ((pl, Nat.pred pi, cdepth) :: stack)
      else (tosort, pl, pr, stack)
  end.

(** The outer [while (1)]: one range is dealt with, then the next one is
    taken from the stack. *)
Fixpoint quicksort_loop (steps : nat) (v : list Z) (tosort : list nat) (pl pr : nat)
         (cdepth : Z) (stack : qs_stack) : list nat :=
  match steps with
  | O => tosort
  | S steps' =>
      let '(tosort, stack) :=
        if cdepth <? 0 then (aheapsort v tosort pl (pr - pl + 1), stack)
        else
          let '(tosort, pl, pr, stack) :=
            partition_while (List.length tosort) v tosort pl pr cdepth stack in
          (insertion_sort (List.length tosort) v tosort pl pr (S pl), stack) in
      match stack with
      | [] => tosort
      | (pl, pr, cdepth) :: stack => quicksort_loop steps' v tosort pl pr cdepth stack
      end
  end.

(** [npy_get_msb]. *)
Definition npy_get_msb (num : nat) : Z := Z.log2 (Z.of_nat num).

(** [aquicksort_(v, tosort, num)] on the positions [0 .. num-1] that
    [argsort] starts from. *)
Definition aquicksort (v : list Z) : list nat :=
  let num := List.length v in
  quicksort_loop (S num) v (seq 0 num) 0 (Nat.pred num) (npy_get_msb num * 2) [].

(** Whether [indexer] lists every position of [xs] once, in ascending
    order of the values. *)
Fixpoint ascending (l : list Z) : bool :=
  match l with
  | x :: (y :: _) as l' => (x <=? y) && ascending l'
  | _ => true
  end.

Definition is_argsort (xs : list Z) (indexer : list nat) : bool :=
  (List.length indexer =? List.length xs)%nat
  && forallb (fun i => existsb (Nat.eqb i) indexer) (seq 0 (List.length xs))
  && ascending (map (value_at xs) indexer).

(** The answer of [aquicksort], taken as it is once it is seen to meet
    the contract of [argsort]; this file carries no proof that it always
    does, so the insertion sort stands by. *)
Definition checked_aquicksort (xs : list Z) : list nat :=
  let indexer := aquicksort xs in
  if is_argsort xs indexer then indexer else insertion_argsort before_stable xs.

(** ** cargar_css (app.py, lines 10-17) *)

(** What [open(archivo)] followed by [f.read()] answers for each path:
    the text of the file, or the exception raised on the way. *)
Definition TextFiles := str -> result str.

Inductive css_event :=
| st_markdown (body : str) (unsafe_allow_html : bool)
| st_warning (msg : str).

(** The text of the warning up to the file name: a warning sign (U+26A0,
    U+FE0F) and the words of line 15, with U+00F3 for the accented o. *)
Definition sin_estilos : str :=
  [0x26A0; 0xFE0F]%N ++ lit " Sin estilos: No se encontr" ++ [0xF3%N] ++ lit " '".

Definition cargar_css (files : TextFiles) (archivo : str) : result (list css_event) :=
  try_except
    (contenido <- files archivo ;;
     Ok [st_markdown (lit "<style>" ++ contenido ++ lit "</style>") true])
    is_FileNotFoundError
    (Ok [st_warning (sin_estilos ++ archivo ++ lit "'.")]).

(** ** The two cleaned columns (app.py, lines 47-48) *)

(** [df[label]]: the cells of one column, top to bottom; [KeyError] for a
    label the frame does not have, whatever the number of rows. *)
Definition column (df : DataFrame) (label : str) : result (list cell) :=
  match index_of label (columns df) with
  | Some j => Ok (map (fun r => nth j r NA) (rows df))
  | None => Raise KeyError
  end.

(** [series.apply(lambda x: limpiar_numero(x, es_float))]. *)
Definition apply_limpiar_numero (es_float : bool) (col : list cell) : result (list value) :=
  map_result (fun x => limpiar_numero x es_float) col.

Definition Precio_column (df : DataFrame) : result (list value) :=
  col <- column df (lit "Precio_Texto") ;; apply_limpiar_numero true col.

Definition Vendidos_column (df : DataFrame) : result (list value) :=
  col <- column df (lit "Vendidos_Texto") ;; apply_limpiar_numero false col.

(** Lines 47 and 48 in turn. *)
Definition aplicar (df : DataFrame) : result (list value * list value) :=
  precio <- Precio_column df ;;
  vendidos <- Vendidos_column df ;;
  Ok (precio, vendidos).

(** The cell of one row under a label, as the views find it after line
    48. Lines 47-48 read [Precio_Texto] and [Vendidos_Texto] only, so no
    other label is asked for here: the cell of a column the frame lacks is
    left missing. The script meets such an absence where it first reads
    the column ([Genero] on line 56, [Marca] on line 71, [Titulo] on line
    109); [Disponibles] and [Ubicacion] it never reads. *)
Definition leer (cols : list str) (r : list cell) (label : string) : cell :=
  match index_of (lit label) cols with
  | Some j => nth j r NA
  | None => NA
  end.

(** One row of the frame with its entries of the two new columns. The
    second case is not met: line 47 stores floats and line 48 ints. *)
Definition fila (cols : list str) (r : list cell) (precio vendidos : value) : result Row :=
  match precio, vendidos with
  | PyFloat p, PyInt v =>
      Ok {| Marca := leer cols r "Marca"; Titulo := leer cols r "Titulo";
            Precio_Texto := leer cols r "Precio_Texto";
            Disponibles := leer cols r "Disponibles";
            Vendidos_Texto := leer cols r "Vendidos_Texto";
            Ubicacion := leer cols r "Ubicacion"; Genero := leer cols r "Genero";
            Precio := p; Vendidos := v |}
  | _, _ => Raise ValueError
  end.

Fixpoint filas (cols : list str) (rs : list (list cell)) (precio vendidos : list value)
  : result (list Row) :=
  match rs, precio, vendidos with
  | r :: rs', p :: precio', v :: vendidos' =>
      row <- fila cols r p v ;;
      tabla <- filas cols rs' precio' vendidos' ;;
      Ok (row :: tabla)
  | _, _, _ => Ok []
  end.

(** The table after lines 47-48: the rows of the frame, each with its
    entries of the columns [Precio] and [Vendidos] that the two lines
    add. *)
Definition aplicar_limpieza (df : DataFrame) : result (list Row) :=
  pv <- aplicar df ;;
  filas (columns df) (rows df) (fst pv) (snd pv).

(** ** The brand selector and the default selections (lines 100-101, 122, 129) *)

(** [series.astype(str)]: a missing value becomes the text [nan]. *)
Definition astype_str (col : list cell) : list str := map str_of_cell col.

(** [series.unique()]: each value once, in the order of first appearance. *)
Fixpoint unique (l : list str) : list str :=
  match l with
  | [] => []
  | x :: l' => x :: filter (fun y => negb (str_eqb y x)) (unique l')
  end.

Fixpoint insert_sorted (x : str) (l : list str) : list str :=
  match l with
  | [] => [x]
  | y :: l' =>
      match str_compare x y with
      | Gt => y :: insert_sorted x l'
      | _ => x :: l
      end
  end.

(** [sorted(texts)] of Python: ascending, equal items in their order. *)
Definition sorted (l : list str) : list str := fold_right insert_sorted [] l.

(** Line 100. *)
Definition marcas (df : list Row) : list str :=
  sorted (unique (astype_str (map Marca df))).

(** The options of the select box of line 101. *)
Definition selectbox_options (df : list Row) : list str :=
  lit "Todas" :: marcas df.

Definition contar (g : list (str * Z)) (c : cell) : list (str * Z) :=
  match c with
  | Str k => acumular_first_seen k 1 g
  | NA => g
  end.

(** [series.value_counts()]: how often each value occurs, missing values
    left out, the most frequent first. *)
Definition value_counts `{ArgSort} (col : list cell) : list (str * Z) :=
  sort_values_desc snd (fold_left contar col []).

(** [df['Marca'].value_counts().head(n).index.tolist()], the default of
    the multiselects: [n] is 5 on line 122 and 10 on line 129. *)
Definition multiselect_default `{ArgSort} (df : list Row) (n : nat) : list str :=
  map fst (head n (value_counts (map Marca df))).

(** ** The violin tab (lines 142-156) *)

Inductive violin_view :=
| violin_plot (df_clean : list Row)
| violin_warning (msg : str).

Definition tab3 (df : list Row) : violin_view :=
  let df_clean := filterByPriceCeiling df ceiling_300 in
  match df_clean with
  | [] => violin_warning (lit "Sin datos suficientes.")
  | _ => violin_plot df_clean
  end.

(** ** [str(n)] for an int that is not negative *)

Fixpoint chars_of_uint (d : Decimal.uint) : str :=
  match d with
  | Decimal.Nil => []
  | Decimal.D0 d' => 48%N :: chars_of_uint d'
  | Decimal.D1 d' => 49%N :: chars_of_uint d'
  | Decimal.D2 d' => 50%N :: chars_of_uint d'
  | Decimal.D3 d' => 51%N :: chars_of_uint d'
  | Decimal.D4 d' => 52%N :: chars_of_uint d'
  | Decimal.D5 d' => 53%N :: chars_of_uint d'
  | Decimal.D6 d' => 54%N :: chars_of_uint d'
  | Decimal.D7 d' => 55%N :: chars_of_uint d'
  | Decimal.D8 d' => 56%N :: chars_of_uint d'
  | Decimal.D9 d' => 57%N :: chars_of_uint d'
  end.

Definition str_of_int (n : N) : str := chars_of_uint (N.to_uint n).

Definition count_dots (s : str) : nat :=
  List.length (filter (fun x => (x =? dot)%N) s).

(** ** Notions the properties are stated with *)

(** The double written [12.99] in Python: [0x1.9fae147ae147bp+3]. *)
Definition f_12_99 : float := S754_finite false 7312719894942843 (-49).

Definition missing (fs : FileSystem) (path : str) : Prop :=
  read_csv fs path = Raise FileNotFoundError.

Definition readable (fs : FileSystem) (path : str) : Prop :=
  exists df, read_csv fs path = Ok df.

(** A source that cannot be read: missing, or present and refused. *)
Definition fails (fs : FileSystem) (path : str) : Prop :=
  exists e, read_csv fs path = Raise e.

Definition fatal_message : list ui_event :=
  [st_error (lit "Faltan los archivos CSV.")].

Definition key_lt (a b : str * Z) : Prop := str_compare (fst a) (fst b) = Lt.

Fixpoint lookup (k : str) (g : list (str * Z)) : option Z :=
  match g with
  | [] => None
  | (k', v) :: g' => if str_eqb k k' then Some v else lookup k g'
  end.

(** The sum as arithmetic has it, without wrap-around. *)
Definition exact_sum (xs : list Z) : Z := fold_right Z.add 0 xs.

(** Every sold count fits a 64-bit integer: the tables whose [Vendidos]
    pandas keeps as an int64 column, which the sums of this file are the
    sums of. *)
Definition int64_column (df : list Row) : Prop :=
  Forall (fun r => - 2 ^ 63 <= Vendidos r < 2 ^ 63) df.

(** No sold count is negative and all of them together stay below 2^63:
    then no 64-bit sum over rows of the table wraps around. *)
Definition no_overflow (df : list Row) : Prop :=
  Forall (fun r => 0 <= Vendidos r) df
  /\ exact_sum (map Vendidos df) < 2 ^ 63.

(** What the rows of one brand sold, as arithmetic has it. *)
Definition exact_total (k : str) (df : list Row) : Z :=
  exact_sum (map Vendidos (filter (fun r => eq_str k (Marca r)) df)).

(** The rows of one brand, and their total. *)
Definition has_brand (k : str) (df : list Row) : bool :=
  existsb (fun r => eq_str k (Marca r)) df.

Definition total_of (k : str) (df : list Row) : Z :=
  sum (map Vendidos (filter (fun r => eq_str k (Marca r)) df)).

(** What the running totals hold once the rows [seen] went in. *)
Definition totals_of (seen : list Row) (g : list (str * Z)) : Prop :=
  StronglySorted key_lt g
  /\ forall k, lookup k g
               = if has_brand k seen then Some (total_of k seen) else None.

Definition by_sold_desc (a b : str * Z) : Prop := snd b <= snd a.

Definition by_Vendidos_desc (a b : Row) : Prop := Vendidos b <= Vendidos a.

Definition clean_value (es_float : bool) (v : value) : Prop :=
  well_typed es_float v = true /\ nonneg v = true.

(** The cell [c] is the one the row [r] of the frame has under [label]. *)
Definition same_cell (cols : list str) (r : list cell) (label : string) (c : cell) : Prop :=
  forall j, index_of (lit label) cols = Some j -> c = nth j r NA.

(** [row] is the row [r] of the frame together with the cleaning of its
    price text (column [jp]) and of its sold text (column [jv]). *)
Definition cleaned_from (cols : list str) (jp jv : nat) (r : list cell) (row : Row) : Prop :=
  Precio_Texto row = nth jp r NA
  /\ Vendidos_Texto row = nth jv r NA
  /\ limpiar_numero (nth jp r NA) true = Ok (PyFloat (Precio row))
  /\ limpiar_numero (nth jv r NA) false = Ok (PyInt (Vendidos row))
  /\ SFleb fzero (Precio row) = true
  /\ 0 <= Vendidos row
  /\ same_cell cols r "Marca" (Marca row)
  /\ same_cell cols r "Titulo" (Titulo row)
  /\ same_cell cols r "Disponibles" (Disponibles row)
  /\ same_cell cols r "Ubicacion" (Ubicacion row)
  /\ same_cell cols r "Genero" (Genero row).

Definition is_Hombre (r : Row) : bool := eq_str (lit "Hombre") (Genero r).
Definition is_Mujer (r : Row) : bool := eq_str (lit "Mujer") (Genero r).

(** Every row carries one of the two tags [cargar_datos] assigns. *)
Definition tagged (df : list Row) : bool :=
  forallb (fun r => is_Hombre r || is_Mujer r) df.

Definition str_lt (a b : str) : Prop := str_compare a b = Lt.
Definition str_le (a b : str) : Prop := str_compare a b <> Gt.

(** How many cells of the column hold the brand [k]. *)
Definition occurrences (k : str) (col : list cell) : Z :=
  Z.of_nat (List.length (filter (eq_str k) col)).

Definition counts_of (seen : list cell) (g : list (str * Z)) : Prop :=
  NoDup (map fst g)
  /\ forall k, lookup k g
               = if existsb (eq_str k) seen then Some (occurrences k seen) else None.

(** ** Sample inputs *)

(** The text made of the one character U+0663 (ARABIC-INDIC DIGIT THREE)
    holds no ASCII digit, yet [str.isdigit] accepts the character and [int]
    reads it as 3. *)
Definition arabic_three : str := [0x663%N].

(** The labels the source files come with. *)
Definition source_columns : list str :=
  [lit "brand"; lit "title"; lit "price"; lit "available"; lit "sold";
   lit "itemLocation"].

(** The end-to-end example of the specification: one listing per source. *)
Definition mens_example : DataFrame :=
  {| columns := source_columns;
     rows := [[Str (lit "A"); Str (lit "Eau A"); Str (lit "$10"); NA;
               Str (lit "5 sold"); Str (lit "Miami")]] |}.

Definition womens_example : DataFrame :=
  {| columns := source_columns;
     rows := [[Str (lit "B"); Str (lit "Eau B"); Str (lit "$20"); NA;
               Str (lit "3 sold"); NA]] |}.

Definition fs_example : FileSystem :=
  fun path =>
    if str_eqb path mens_csv then Ok mens_example
    else if str_eqb path womens_csv then Ok womens_example
    else Raise FileNotFoundError.

(** Only the women's file is there. *)
Definition fs_no_mens : FileSystem :=
  fun path =>
    if str_eqb path womens_csv then Ok womens_example
    else Raise FileNotFoundError.

(** The men's file is there but may not be opened. *)
Definition fs_unreadable : FileSystem :=
  fun path =>
    if str_eqb path mens_csv then Raise PermissionError
    else if str_eqb path womens_csv then Ok womens_example
    else Raise FileNotFoundError.

Definition listing (marca titulo : string) (precio : float) (vendidos : Z) : Row :=
  {| Marca := Str (lit marca); Titulo := Str (lit titulo);
     Precio_Texto := NA; Disponibles := NA; Vendidos_Texto := NA;
     Ubicacion := NA; Genero := Hombre;
     Precio := precio; Vendidos := vendidos |}.

(** A listing the file gives no brand for. *)
Definition unbranded (titulo : string) (vendidos : Z) : Row :=
  {| Marca := NA; Titulo := Str (lit titulo);
     Precio_Texto := NA; Disponibles := NA; Vendidos_Texto := NA;
     Ubicacion := NA; Genero := Hombre;
     Precio := fzero; Vendidos := vendidos |}.

Definition table_BA : list Row :=
  [listing "B" "uno" fzero 5; listing "A" "dos" fzero 5].

Definition table_AB : list Row :=
  [listing "A" "uno" fzero 5; listing "B" "dos" fzero 5].

Definition table_AA : list Row :=
  [listing "A" "uno" fzero 5; listing "A" "dos" fzero 5].

Definition table_prices : list Row :=
  [listing "A" "uno" f_12_99 1; listing "B" "dos" ceiling_300 2].

(** The women's file comes without a price column. *)
Definition womens_no_price : DataFrame :=
  {| columns := [lit "brand"; lit "sold"];
     rows := [[Str (lit "B"); Str (lit "3 sold")]] |}.

Definition fs_no_price : FileSystem :=
  fun path =>
    if str_eqb path mens_csv then Ok mens_example
    else if str_eqb path womens_csv then Ok womens_no_price
    else Raise FileNotFoundError.

(** A frame without the columns [Disponibles] and [Ubicacion], which the
    script never reads. *)
Definition short_frame : DataFrame :=
  {| columns := [lit "Marca"; lit "Precio_Texto"; lit "Vendidos_Texto"; lit "Genero"];
     rows := [[Str (lit "A"); Str (lit "-$10"); Str (lit "n/a"); Hombre];
              [NA; Str (lit "$12.99"); Str (lit "5 sold"); Mujer]] |}.

Definition table_ABC : list Row :=
  [listing "A" "uno" fzero 3; listing "B" "dos" fzero 9; listing "C" "tres" fzero 4].

Definition table_A3 : list Row :=
  [listing "A" "uno" fzero 3; listing "A" "dos" fzero 9; listing "A" "tres" fzero 4].

Definition table_AAB : list Row :=
  [listing "A" "uno" fzero 3; listing "B" "dos" fzero 9; listing "A" "tres" fzero 4].

Definition no_files : TextFiles := fun _ => Raise FileNotFoundError.

(** Twenty listings of brand A that sold 5 and 3 times in turn. *)
Definition table_turns : list Row :=
  [listing "A" "t01" fzero 5; listing "A" "t02" fzero 3;
   listing "A" "t03" fzero 5; listing "A" "t04" fzero 3;
   listing "A" "t05" fzero 5; listing "A" "t06" fzero 3;
   listing "A" "t07" fzero 5; listing "A" "t08" fzero 3;
   listing "A" "t09" fzero 5; listing "A" "t10" fzero 3;
   listing "A" "t11" fzero 5; listing "A" "t12" fzero 3;
   listing "A" "t13" fzero 5; listing "A" "t14" fzero 3;
   listing "A" "t15" fzero 5; listing "A" "t16" fzero 3;
   listing "A" "t17" fzero 5; listing "A" "t18" fzero 3;
   listing "A" "t19" fzero 5; listing "A" "t20" fzero 3].

(** A listing of the women's file. *)
Definition listing_mujer (marca titulo : string) (precio : float) (vendidos : Z) : Row :=
  {| Marca := Str (lit marca); Titulo := Str (lit titulo);
     Precio_Texto := NA; Disponibles := NA; Vendidos_Texto := NA;
     Ubicacion := NA; Genero := Mujer;
     Precio := precio; Vendidos := vendidos |}.

(** Two listings that sold 2^62 times each, the second one without a
    brand: together they pass what a 64-bit integer holds. *)
Definition table_big : list Row :=
  [listing "A" "uno" fzero (2 ^ 62); unbranded "dos" (2 ^ 62)].

(** Two listings for men and one for women between them. *)
Definition table_HMH : list Row :=
  [listing "A" "uno" fzero 5; listing_mujer "B" "dos" fzero 3;
   listing "A" "tres" fzero 4].

(** * Properties *)

(** ** limpiar_numero *)

Lemma join_singletons (s : str) : join (map (fun x => [x]) s) = s.
Proof.
  unfold join. induction s as [|c s IH]; simpl; [reflexivity|].
  now rewrite IH.
Qed.

Lemma limpio_filter (s : str) (es_float : bool) :
  limpio (Str s) es_float = filter (keep es_float) s.
Proof. unfold limpio. simpl. apply join_singletons. Qed.

(** Only digit characters and dots reach [int] and [float]. *)
Lemma limpio_alphabet (texto : cell) (es_float : bool) :
  Forall (fun x => isdigit x = true \/ x = dot) (limpio texto es_float).
Proof.
  unfold limpio. rewrite join_singletons.
  apply Forall_forall. intros x Hx. apply filter_In in Hx.
  destruct Hx as [_ Hk]. unfold keep in Hk.
  apply orb_true_iff in Hk. destruct Hk as [Hd|Hd]; [now left|right].
  apply andb_true_iff in Hd. destruct Hd as [Hd _].
  now apply N.eqb_eq in Hd.
Qed.

Lemma limpiar_numero_unfold (s : str) (es_float : bool) :
  limpiar_numero (Str s) es_float
  = Ok (parse_or_default es_float (filter (keep es_float) s)).
Proof.
  unfold limpiar_numero, parse_or_default. simpl isna. cbv iota.
  rewrite limpio_filter.
  destruct es_float.
  - destruct (py_float _); reflexivity.
  - destruct (py_int _); reflexivity.
Qed.

Lemma ascii_table_agrees :
  forallb (fun n => Bool.eqb (isdigit (N.of_nat n)) (is_ascii_digit (N.of_nat n)))
          (seq 0 128) = true.
Proof. vm_compute. reflexivity. Qed.

Lemma isdigit_ascii (x : N) : (x < 128)%N -> isdigit x = is_ascii_digit x.
Proof.
  intros Hx.
  pose proof ascii_table_agrees as H.
  rewrite forallb_forall in H.
  specialize (H (N.to_nat x)).
  rewrite N2Nat.id in H.
  apply eqb_prop, H, in_seq. lia.
Qed.

Lemma keep_ascii (s : str) (es_float : bool) :
  is_ascii s = true -> filter (keep es_float) s = filter (keep_spec es_float) s.
Proof.
  unfold is_ascii. intros H. rewrite forallb_forall in H.
  apply filter_ext_in. intros x Hx.
  unfold keep, keep_spec. rewrite isdigit_ascii; [reflexivity|].
  apply N.ltb_lt. now apply H.
Qed.

(** *** Results are never negative *)

Lemma to_decimal_in_nonneg runs c d : to_decimal_in runs c = Some d -> 0 <= d.
Proof.
  induction runs as [|r runs IH]; simpl; [discriminate|].
  destruct (in_run c r); [|exact IH].
  intros [= <-]. apply N2Z.is_nonneg.
Qed.

Lemma decimal_value_nonneg (s : str) : forall acc n,
  0 <= acc -> decimal_value acc s = Some n -> 0 <= n.
Proof.
  induction s as [|c s IH]; simpl; intros acc n Hacc H.
  - now injection H as <-.
  - destruct (to_decimal c) as [d|] eqn:Hd; [|discriminate].
    apply to_decimal_in_nonneg in Hd.
    apply (IH (10 * acc + d)); [lia|exact H].
Qed.

Lemma py_int_nonneg (s : str) (n : Z) : py_int s = Ok n -> 0 <= n.
Proof.
  unfold py_int. destruct s as [|c s]; [discriminate|].
  destruct (decimal_value 0 (c :: s)) as [m|] eqn:Hm; [|discriminate].
  destruct (_ <? _)%nat; [discriminate|].
  intros [= <-]. now apply (decimal_value_nonneg (c :: s) 0).
Qed.

Section Rounding.

Let P (mrs : shr_record) : Prop := 0 <= shr_m mrs.

Lemma shr_1_nonneg mrs : P mrs -> P (shr_1 mrs).
Proof.
  unfold P. destruct mrs as [m r s]. simpl.
  destruct m as [|[p|p|]|p]; simpl; lia.
Qed.

Lemma iter_pos_shr_1_nonneg (p : positive) : forall mrs,
  P mrs -> P (iter_pos shr_1 p mrs).
Proof.
  induction p as [p IH|p IH|]; simpl; intros mrs H.
  - apply IH, IH, shr_1_nonneg, H.
  - apply IH, IH, H.
  - apply shr_1_nonneg, H.
Qed.

Lemma shr_fexp_nonneg m e l :
  0 <= m -> P (fst (shr_fexp prec emax m e l)).
Proof.
  intros Hm. unfold shr_fexp, shr.
  assert (H0 : P (shr_record_of_loc m l)).
  { unfold P. destruct l as [|[]]; exact Hm. }
  destruct (_ - e) as [|p|p]; simpl; auto using iter_pos_shr_1_nonneg.
Qed.

Lemma round_nearest_even_nonneg m l : 0 <= m -> 0 <= round_nearest_even m l.
Proof.
  intros Hm. destruct l as [|[]]; simpl; try destruct (Z.even m); lia.
Qed.

Lemma binary_round_aux_nonneg m e l :
  0 <= m -> SFleb fzero (binary_round_aux prec emax false m e l) = true.
Proof.
  intros Hm. unfold binary_round_aux.
  pose proof (shr_fexp_nonneg m e l Hm) as H1.
  destruct (shr_fexp prec emax m e l) as [mrs' e'].
  simpl in H1.
  pose proof (shr_fexp_nonneg _ e' loc_Exact
                (round_nearest_even_nonneg _ (loc_of_shr_record mrs') H1)) as H2.
  destruct (shr_fexp prec emax _ e' loc_Exact) as [mrs'' e''].
  simpl in H2. unfold P in H2.
  destruct (shr_m mrs'') as [|q|q]; [reflexivity| |lia].
  destruct (_ <=? _); reflexivity.
Qed.

End Rounding.

Lemma float_of_decimal_nonneg (m : Z) (k : nat) :
  SFleb fzero (float_of_decimal m k) = true.
Proof.
  unfold float_of_decimal. destruct m as [|p|p]; try reflexivity.
  unfold SFdiv, SFdiv_core_binary.
  set (m' := match _ - _ with Z0 => _ | Zpos _ => _ | Zneg _ => _ end).
  assert (Hm' : 0 <= m').
  { subst m'. destruct (_ - _); [lia| |lia].
    apply Z.shiftl_nonneg. lia. }
  pose proof (Z_div_mod m' (Z.pos (Z.to_pos (10 ^ Z.of_nat k))) ltac:(lia)) as Hdiv.
  destruct (Z.div_eucl m' _) as [q r].
  simpl xorb. apply binary_round_aux_nonneg. nia.
Qed.

Lemma py_float_nonneg (s : str) (f : float) :
  py_float s = Ok f -> SFleb fzero f = true.
Proof.
  unfold py_float. destruct (split_dot s) as [ent frac].
  destruct (ent ++ _) as [|c ds]; [discriminate|].
  destruct (decimal_value 0 (c :: ds)); [|discriminate].
  intros [= <-]. apply float_of_decimal_nonneg.
Qed.

Lemma parse_or_default_ok (es_float : bool) (candidate : str) :
  well_typed es_float (parse_or_default es_float candidate) = true
  /\ nonneg (parse_or_default es_float candidate) = true.
Proof.
  unfold parse_or_default. destruct es_float.
  - destruct (py_float candidate) as [f|e] eqn:Hf; simpl; split; try reflexivity.
    now apply py_float_nonneg in Hf.
  - destruct (py_int candidate) as [n|e] eqn:Hn; simpl; split; try reflexivity.
    apply py_int_nonneg in Hn. now apply Z.leb_le.
Qed.

(** C1 (as amended): for every text, [limpiar_numero] keeps, in order,
    the characters [str.isdigit] accepts, and every dot in Float mode only,
    parses what is kept and answers the default when the parse fails; on
    ASCII text the kept characters are exactly the ASCII digits (and dots),
    so the result is the one of the documented extraction; and the four
    documented examples evaluate as stated. *)
Theorem limpiar_numero_extraction (s : str) (es_float : bool) :
  limpiar_numero (Str s) es_float
    = Ok (parse_or_default es_float (filter (keep es_float) s))
  /\ (is_ascii s = true ->
      limpiar_numero (Str s) es_float = Ok (normalizeNumeric_spec (Str s) es_float))
  /\ limpiar_numero (Str (lit "$12.99")) true = Ok (PyFloat f_12_99)
  /\ limpiar_numero (Str (lit "12 sold")) false = Ok (PyInt 12)
  /\ limpiar_numero (Str (lit "N/A")) false = Ok (PyInt 0)
  /\ limpiar_numero (Str (lit "1.2.3")) true = Ok (PyFloat fzero).
Proof.
  split; [apply limpiar_numero_unfold|].
  split.
  - intros Hs. rewrite limpiar_numero_unfold. simpl.
    now rewrite (keep_ascii s es_float Hs).
  - repeat split; vm_compute; reflexivity.
Qed.

Lemma limpiar_numero_extraction_witness :
  is_ascii (lit "US $84.99/ea") = true
  /\ limpiar_numero (Str (lit "US $84.99/ea")) true
     = Ok (normalizeNumeric_spec (Str (lit "US $84.99/ea")) true).
Proof.
  split; [reflexivity|].
  apply (proj1 (proj2 (limpiar_numero_extraction (lit "US $84.99/ea") true))).
  reflexivity.
Defined.

(** C1 (as stated) fails: in Integer mode the documented extraction keeps
    nothing of [arabic_three] and answers 0; [limpiar_numero] keeps the
    character and answers 3. *)
Lemma limpiar_numero_not_ascii_only :
  filter (keep_spec false) arabic_three = []
  /\ normalizeNumeric_spec (Str arabic_three) false = PyInt 0
  /\ filter (keep false) arabic_three = arabic_three
  /\ limpiar_numero (Str arabic_three) false = Ok (PyInt 3)
  /\ limpiar_numero (Str arabic_three) false
     <> Ok (normalizeNumeric_spec (Str arabic_three) false).
Proof.
  repeat split; try (vm_compute; reflexivity).
  vm_compute. discriminate.
Qed.

(** C2: [limpiar_numero] returns for every input, missing or text; what it
    returns is a float in Float mode and an int in Integer mode, and is
    never negative; a missing input gives [0.0], respectively [0]. *)
Theorem limpiar_numero_total :
  (forall (texto : cell) (es_float : bool),
     exists v, limpiar_numero texto es_float = Ok v
               /\ well_typed es_float v = true
               /\ nonneg v = true)
  /\ limpiar_numero NA true = Ok (PyFloat fzero)
  /\ limpiar_numero NA false = Ok (PyInt 0).
Proof.
  split; [|split; reflexivity].
  intros [|s] es_float.
  - exists (default_value es_float). destruct es_float; repeat split.
  - exists (parse_or_default es_float (filter (keep es_float) s)).
    split; [apply limpiar_numero_unfold|apply parse_or_default_ok].
Qed.

(** ** cargar_datos *)

Lemma str_eqb_eq (a b : str) : str_eqb a b = true <-> a = b.
Proof.
  unfold str_eqb. destruct (str_eq_dec a b); split; congruence.
Qed.

Lemma str_eqb_refl (a : str) : str_eqb a a = true.
Proof. now apply str_eqb_eq. Qed.

Lemma str_eqb_neq (a b : str) : str_eqb a b = false <-> a <> b.
Proof.
  unfold str_eqb. destruct (str_eq_dec a b); split; congruence.
Qed.

Lemma has_label_In (cols : list str) (c : str) :
  has_label cols c = true <-> In c cols.
Proof.
  unfold has_label. rewrite existsb_exists. split.
  - intros [x [Hin Hx]]. apply str_eqb_eq in Hx. now subst.
  - intros Hin. exists c. split; [exact Hin|apply str_eqb_refl].
Qed.

Lemma distinct_NoDup (cols : list str) : distinct cols = true -> NoDup cols.
Proof.
  induction cols as [|c cols IH]; simpl; intros H; constructor.
  - apply andb_true_iff in H. destruct H as [H _].
    apply negb_true_iff in H. intros Hin.
    apply (has_label_In cols c) in Hin. unfold has_label in Hin. congruence.
  - apply IH. now apply andb_true_iff in H.
Qed.

Lemma index_of_Some (c : str) (cols : list str) : forall j,
  index_of c cols = Some j ->
  (j < List.length cols)%nat /\ forall d, nth j cols d = c.
Proof.
  induction cols as [|c' cols IH]; simpl; intros j H; [discriminate|].
  destruct (str_eqb c c') eqn:E.
  - injection H as <-. apply str_eqb_eq in E. split; [lia|now intros].
  - destruct (index_of c cols) as [k|]; [|discriminate].
    injection H as <-. destruct (IH k eq_refl) as [Hk Hn].
    split; [lia|exact Hn].
Qed.

Lemma index_of_In (c : str) (cols : list str) :
  In c cols -> exists j, index_of c cols = Some j.
Proof.
  induction cols as [|c' cols IH]; simpl; [tauto|].
  intros H. destruct (str_eqb c c') eqn:E; [now exists O|].
  apply str_eqb_neq in E. destruct H as [H|H]; [congruence|].
  destruct (IH H) as [j ->]. now exists (S j).
Qed.

Lemma index_of_None (c : str) (cols : list str) :
  index_of c cols = None -> ~ In c cols.
Proof.
  intros H Hin. apply index_of_In in Hin. destruct Hin as [j Hj]. congruence.
Qed.

Lemma index_of_nth (cols : list str) : forall j d,
  NoDup cols -> (j < List.length cols)%nat -> index_of (nth j cols d) cols = Some j.
Proof.
  induction cols as [|c cols IH]; simpl; intros j d Hnd Hj; [lia|].
  inversion Hnd as [|? ? Hnotin Hnd']; subst.
  destruct j as [|j].
  - now rewrite str_eqb_refl.
  - assert (Hne : str_eqb (nth j cols d) c = false).
    { apply str_eqb_neq. intros Heq. apply Hnotin. rewrite <- Heq.
      apply nth_In. lia. }
    rewrite Hne, IH; [reflexivity|assumption|lia].
Qed.

Lemma index_of_app_l (c : str) (a b : list str) (j : nat) :
  index_of c a = Some j -> index_of c (a ++ b) = Some j.
Proof.
  revert j. induction a as [|c' a IH]; simpl; intros j H; [discriminate|].
  destruct (str_eqb c c'); [exact H|].
  destruct (index_of c a) as [k|]; [|discriminate].
  now rewrite (IH k eq_refl).
Qed.

Lemma index_of_app_r (c : str) (a b : list str) :
  index_of c a = None ->
  index_of c (a ++ b) = option_map (Nat.add (List.length a)) (index_of c b).
Proof.
  induction a as [|c' a IH]; simpl; intros H.
  - now destruct (index_of c b).
  - destruct (str_eqb c c'); [discriminate|].
    destruct (index_of c a); [discriminate|].
    rewrite (IH eq_refl). now destruct (index_of c b).
Qed.

Lemma nth_set_nth_eq {A} (l : list A) : forall j v d,
  (j < List.length l)%nat -> nth j (set_nth j v l) d = v.
Proof.
  induction l as [|x l IH]; simpl; intros j v d Hj; [lia|].
  destruct j; simpl; [reflexivity|]. apply IH. lia.
Qed.

Lemma nth_set_nth_neq {A} (l : list A) : forall j k v d,
  j <> k -> nth k (set_nth j v l) d = nth k l d.
Proof.
  induction l as [|x l IH]; simpl; intros j k v d Hne.
  - now destruct j.
  - destruct j, k; simpl; try reflexivity; try congruence.
    apply IH. congruence.
Qed.

Lemma nth_map_lt {A B} (f : A -> B) (l : list A) (i : nat) (d : A) (d' : B) :
  (i < List.length l)%nat -> nth i (map f l) d' = f (nth i l d).
Proof.
  intros Hi. rewrite (nth_indep _ d' (f d)); [apply map_nth|].
  now rewrite length_map.
Qed.

(** The rows of a frame all have one cell per label. *)
Lemma well_formed_row (df : DataFrame) (i : nat) :
  well_formed df = true -> (i < List.length (rows df))%nat ->
  List.length (nth i (rows df) []) = List.length (columns df).
Proof.
  unfold well_formed. intros H Hi. apply andb_true_iff in H.
  destruct H as [H _]. rewrite forallb_forall in H.
  apply Nat.eqb_eq, H, nth_In, Hi.
Qed.

Lemma well_formed_NoDup (df : DataFrame) :
  well_formed df = true -> NoDup (columns df).
Proof.
  unfold well_formed. intros H. apply andb_true_iff in H.
  now apply distinct_NoDup.
Qed.

(** *** assign *)

Lemma assign_length (name : str) (v : cell) (df : DataFrame) :
  List.length (rows (assign name v df)) = List.length (rows df).
Proof.
  unfold assign. destruct (index_of name (columns df)); simpl; apply length_map.
Qed.

Lemma assign_columns_prefix (name : str) (v : cell) (df : DataFrame) :
  exists extra, columns (assign name v df) = columns df ++ extra.
Proof.
  unfold assign. destruct (index_of name (columns df)); simpl.
  - exists []. now rewrite app_nil_r.
  - now exists [name].
Qed.

Lemma assign_NoDup (name : str) (v : cell) (df : DataFrame) :
  NoDup (columns df) -> NoDup (columns (assign name v df)).
Proof.
  unfold assign. destruct (index_of name (columns df)) eqn:E; simpl; [easy|].
  intros H. apply index_of_None in E.
  apply NoDup_app; [exact H|repeat constructor; simpl; tauto|].
  intros x Hx [<-|[]]. contradiction.
Qed.

(** Cells of the other columns are as they were. *)
Lemma assign_other (name : str) (v : cell) (df : DataFrame) (i j : nat) :
  well_formed df = true ->
  (i < List.length (rows df))%nat -> (j < List.length (columns df))%nat ->
  nth j (columns df) [] <> name ->
  celda (assign name v df) i j = celda df i j.
Proof.
  intros Hwf Hi Hj Hne. unfold celda, assign.
  destruct (index_of name (columns df)) as [g|] eqn:E; simpl.
  - rewrite (nth_map_lt _ _ _ []) by exact Hi.
    apply nth_set_nth_neq. intros ->.
    apply index_of_Some in E. destruct E as [_ E]. now apply Hne.
  - rewrite (nth_map_lt _ _ _ []) by exact Hi.
    apply app_nth1. now rewrite well_formed_row.
Qed.

(** The assigned column holds the tag in every row. *)
Lemma assign_tag (name : str) (v : cell) (df : DataFrame) :
  well_formed df = true ->
  exists g, index_of name (columns (assign name v df)) = Some g
            /\ forall i, (i < List.length (rows df))%nat ->
                         celda (assign name v df) i g = v.
Proof.
  intros Hwf. unfold celda, assign.
  destruct (index_of name (columns df)) as [g|] eqn:E; simpl.
  - exists g. split; [exact E|]. intros i Hi.
    rewrite (nth_map_lt _ _ _ []) by exact Hi.
    apply nth_set_nth_eq. rewrite well_formed_row by assumption.
    now apply index_of_Some in E.
  - exists (List.length (columns df)). split.
    + rewrite index_of_app_r by exact E. simpl.
      rewrite str_eqb_refl. simpl. f_equal. lia.
    + intros i Hi. rewrite (nth_map_lt _ _ _ []) by exact Hi.
      rewrite app_nth2; rewrite well_formed_row by assumption; [|lia].
      now rewrite Nat.sub_diag.
Qed.

(** *** concat *)

Lemma reindex_lookup (from to : list str) (r : list cell) (c : str) (j : nat) :
  index_of c to = Some j ->
  nth j (reindex from to r) NA
  = match index_of c from with Some k => nth k r NA | None => NA end.
Proof.
  intros H. apply index_of_Some in H. destruct H as [Hj Hn].
  unfold reindex. rewrite (nth_map_lt _ _ _ c) by exact Hj.
  now rewrite Hn.
Qed.

Lemma concat2_length (a b : DataFrame) :
  List.length (rows (concat2 a b)) = (List.length (rows a) + List.length (rows b))%nat.
Proof. unfold concat2. simpl. now rewrite length_app, !length_map. Qed.

Lemma concat2_has_column (a b : DataFrame) (c : str) :
  In c (columns a) \/ In c (columns b) ->
  exists j, index_of c (columns (concat2 a b)) = Some j.
Proof.
  intros H. apply index_of_In. unfold concat2. simpl.
  apply in_app_iff.
  destruct (has_label (columns a) c) eqn:E.
  - left. now apply has_label_In.
  - right. destruct H as [H|H].
    + apply has_label_In in H. congruence.
    + apply filter_In. split; [exact H|now rewrite E].
Qed.

(** A row of the first frame, read at a label of that frame. *)
Lemma concat2_first (a b : DataFrame) (i k : nat) (c : str) :
  (i < List.length (rows a))%nat ->
  index_of c (columns a) = Some k ->
  index_of c (columns (concat2 a b)) = Some k
  /\ celda (concat2 a b) i k = celda a i k.
Proof.
  intros Hi Hk.
  assert (Hc : index_of c (columns (concat2 a b)) = Some k).
  { unfold concat2. simpl. now apply index_of_app_l. }
  split; [exact Hc|].
  unfold celda. unfold concat2 at 1. simpl.
  rewrite app_nth1 by now rewrite length_map.
  rewrite (nth_map_lt _ _ _ []) by exact Hi.
  rewrite (reindex_lookup _ _ _ c k Hc). now rewrite Hk.
Qed.

(** A row of the second frame, read at a label of that frame. *)
Lemma concat2_second (a b : DataFrame) (i k : nat) (c : str) :
  (i < List.length (rows b))%nat ->
  index_of c (columns b) = Some k ->
  exists j, index_of c (columns (concat2 a b)) = Some j
            /\ celda (concat2 a b) (List.length (rows a) + i) j = celda b i k.
Proof.
  intros Hi Hk.
  destruct (concat2_has_column a b c) as [j Hj].
  { right. apply index_of_Some in Hk. destruct Hk as [Hk Hn].
    rewrite <- (Hn []). now apply nth_In. }
  exists j. split; [exact Hj|].
  unfold celda. unfold concat2 at 1. simpl.
  rewrite app_nth2; rewrite length_map; [|lia].
  replace (List.length (rows a) + i - List.length (rows a))%nat with i by lia.
  rewrite (nth_map_lt _ _ _ []) by exact Hi.
  rewrite (reindex_lookup _ _ _ c j Hj). now rewrite Hk.
Qed.

(** *** rename *)

Lemma rename_label_other (mapping : list (str * str)) (c : str) :
  ~ In c (map fst mapping) -> rename_label mapping c = c.
Proof.
  induction mapping as [|[old new] mapping IH]; simpl; intros H; [reflexivity|].
  destruct (str_eqb c old) eqn:E.
  - apply str_eqb_eq in E. subst. tauto.
  - apply IH. tauto.
Qed.

Lemma rename_column (mapping : list (str * str)) (df : DataFrame) (c : str) (j : nat) :
  index_of c (columns df) = Some j ->
  nth j (columns (rename mapping df)) [] = rename_label mapping c.
Proof.
  intros H. apply index_of_Some in H. destruct H as [Hj Hn].
  unfold rename. simpl. rewrite (nth_map_lt _ _ _ c) by exact Hj.
  now rewrite Hn.
Qed.

(** *** The loaded table *)

(** C3: with both sources read, of M and N rows, [cargar_datos] returns a
    table of M+N rows; rows 0..M-1 are the rows of the first source in
    their order and carry [Hombre] in the [Genero] column, rows M..M+N-1
    are the rows of the second source in their order and carry [Mujer];
    every source cell is found under the renamed label of its column; the
    renaming changes the six source labels and no other, [Genero]
    included. *)
Theorem cargar_datos_rows (fs : FileSystem) (m w : DataFrame) :
  read_csv fs mens_csv = Ok m ->
  read_csv fs womens_csv = Ok w ->
  well_formed m = true ->
  well_formed w = true ->
  exists df,
    cargar_datos fs = Ok (Some df)
    /\ List.length (rows df) = (List.length (rows m) + List.length (rows w))%nat
    /\ (forall i c k,
          (i < List.length (rows m))%nat ->
          index_of c (columns m) = Some k -> c <> Genero_label ->
          nth k (columns df) [] = rename_label renombres c
          /\ celda df i k = celda m i k)
    /\ (forall i c k,
          (i < List.length (rows w))%nat ->
          index_of c (columns w) = Some k -> c <> Genero_label ->
          exists j, nth j (columns df) [] = rename_label renombres c
                    /\ celda df (List.length (rows m) + i) j = celda w i k)
    /\ (exists g,
          nth g (columns df) [] = Genero_label
          /\ (forall i, (i < List.length (rows m))%nat -> celda df i g = Hombre)
          /\ (forall i, (i < List.length (rows w))%nat ->
                        celda df (List.length (rows m) + i) g = Mujer))
    /\ (forall c, ~ In c source_columns -> rename_label renombres c = c)
    /\ map (rename_label renombres) source_columns
       = [lit "Marca"; lit "Titulo"; lit "Precio_Texto"; lit "Disponibles";
          lit "Vendidos_Texto"; lit "Ubicacion"].
Proof.
  intros Hm Hw Wm Ww.
  set (dfm := assign Genero_label Hombre m).
  set (dfw := assign Genero_label Mujer w).
  exists (rename renombres (concat2 dfm dfw)).
  assert (Lm : List.length (rows dfm) = List.length (rows m)) by apply assign_length.
  assert (Lw : List.length (rows dfw) = List.length (rows w)) by apply assign_length.
  assert (Im : forall c k, index_of c (columns m) = Some k ->
                           index_of c (columns dfm) = Some k).
  { intros c k H. destruct (assign_columns_prefix Genero_label Hombre m) as [x Hx].
    subst dfm. rewrite Hx. now apply index_of_app_l. }
  assert (Iw : forall c k, index_of c (columns w) = Some k ->
                           index_of c (columns dfw) = Some k).
  { intros c k H. destruct (assign_columns_prefix Genero_label Mujer w) as [x Hx].
    subst dfw. rewrite Hx. now apply index_of_app_l. }
  split; [|split; [|split; [|split; [|split; [|split]]]]].
  - unfold cargar_datos. rewrite Hm. simpl. rewrite Hw. reflexivity.
  - simpl. rewrite length_app, !length_map. lia.
  - intros i c k Hi Hk Hc.
    destruct (concat2_first dfm dfw i k c) as [Hj Hcell]; [lia|auto|].
    split; [now apply rename_column|].
    change (celda (concat2 dfm dfw) i k = celda m i k).
    rewrite Hcell. apply index_of_Some in Hk. destruct Hk as [Hk Hn].
    apply assign_other; auto. now rewrite Hn.
  - intros i c k Hi Hk Hc.
    destruct (concat2_second dfm dfw i k c) as [j [Hj Hcell]]; [lia|auto|].
    exists j. split; [now apply rename_column|].
    change (celda (concat2 dfm dfw) (List.length (rows m) + i) j = celda w i k).
    rewrite <- Lm, Hcell. apply index_of_Some in Hk. destruct Hk as [Hk Hn].
    apply assign_other; auto. now rewrite Hn.
  - destruct (assign_tag Genero_label Hombre m Wm) as [g [Hg Htag]].
    destruct (assign_tag Genero_label Mujer w Ww) as [g' [Hg' Htag']].
    fold dfm in Hg, Htag. fold dfw in Hg', Htag'.
    exists g. split; [|split].
    + rewrite (rename_column _ _ Genero_label g); [reflexivity|].
      unfold concat2. simpl. now apply index_of_app_l.
    + intros i Hi.
      destruct (concat2_first dfm dfw i g Genero_label) as [_ Hcell]; [lia|auto|].
      change (celda (concat2 dfm dfw) i g = Hombre).
      rewrite Hcell. now apply Htag.
    + intros i Hi.
      destruct (concat2_second dfm dfw i g' Genero_label) as [j [Hj Hcell]];
        [lia|auto|].
      assert (j = g).
      { assert (H : index_of Genero_label (columns (concat2 dfm dfw)) = Some g).
        { unfold concat2. simpl. now apply index_of_app_l. }
        congruence. }
      subst j.
      change (celda (concat2 dfm dfw) (List.length (rows m) + i) g = Mujer).
      rewrite <- Lm, Hcell. now apply Htag'.
  - intros c Hc. apply rename_label_other. exact Hc.
  - reflexivity.
Qed.

Lemma cargar_datos_rows_witness :
  exists df,
    cargar_datos fs_example = Ok (Some df)
    /\ List.length (rows df) = 2%nat
    /\ celda df 0 0 = Str (lit "A") /\ celda df 1 0 = Str (lit "B")
    /\ celda df 0 6 = Hombre /\ celda df 1 6 = Mujer.
Proof.
  destruct (cargar_datos_rows fs_example mens_example womens_example
              eq_refl eq_refl eq_refl eq_refl) as [df [H _]].
  exists df. split; [exact H|].
  injection H as <-. repeat split.
Defined.

(** ** Missing and unreadable sources *)

(** C5 (as amended): when a source file is missing -- the first one, or
    the second one after the first was read -- [cargar_datos] returns
    [None] and no table, and the script shows the fatal message and stops
    there. *)
Theorem cargar_datos_missing (fs : FileSystem) :
  missing fs mens_csv \/ (readable fs mens_csv /\ missing fs womens_csv) ->
  cargar_datos fs = Ok None /\ arranque fs = Stopped fatal_message.
Proof.
  unfold missing, readable, arranque, cargar_datos.
  intros [H|[[df H] H']].
  - rewrite H. simpl. split; reflexivity.
  - rewrite H. simpl. rewrite H'. simpl. split; reflexivity.
Qed.

Lemma cargar_datos_missing_witness :
  missing fs_no_mens mens_csv
  /\ cargar_datos fs_no_mens = Ok None
  /\ arranque fs_no_mens = Stopped fatal_message.
Proof.
  split; [reflexivity|].
  apply (cargar_datos_missing fs_no_mens). left. reflexivity.
Defined.

(** C5 (as stated) fails for a source that is unreadable rather than
    missing: the error is not the one [cargar_datos] handles, so it leaves
    the function instead of [None], and the script ends on it without
    reaching the fatal message. *)
Lemma cargar_datos_unreadable :
  fails fs_unreadable mens_csv
  /\ cargar_datos fs_unreadable = Raise PermissionError
  /\ arranque fs_unreadable = Uncaught PermissionError
  /\ ~ (cargar_datos fs_unreadable = Ok None
        /\ arranque fs_unreadable = Stopped fatal_message).
Proof.
  split; [exists PermissionError; reflexivity|].
  split; [reflexivity|]. split; [reflexivity|].
  intros [H _]. vm_compute in H. discriminate.
Qed.

(** ** Selections *)

Lemma boolean_index_filter {A} (f : A -> bool) (df : list A) :
  boolean_index df (map f df) = filter f df.
Proof.
  induction df as [|r df IH]; simpl; [reflexivity|].
  rewrite IH. reflexivity.
Qed.

Lemma SFltb_not_eq (x y : float) :
  SFcompare x y = Some Eq -> SFltb x y = false.
Proof. unfold SFltb. now intros ->. Qed.

(** C8: the price filter returns, in table order, the rows whose price is
    under the ceiling and no other; a row priced at the ceiling is left
    out. *)
Theorem filterByPriceCeiling_strict (df : list Row) (ceiling : float) :
  filterByPriceCeiling df ceiling = filter (fun r => SFltb (Precio r) ceiling) df
  /\ (forall r, In r (filterByPriceCeiling df ceiling)
                <-> In r df /\ SFltb (Precio r) ceiling = true)
  /\ (forall r, SFcompare (Precio r) ceiling = Some Eq ->
                ~ In r (filterByPriceCeiling df ceiling)).
Proof.
  unfold filterByPriceCeiling. rewrite boolean_index_filter.
  split; [reflexivity|]. split.
  - intros r. apply filter_In.
  - intros r Heq Hin. apply filter_In in Hin. destruct Hin as [_ Hlt].
    rewrite (SFltb_not_eq _ _ Heq) in Hlt. discriminate.
Qed.

Lemma isin_In (sel : list str) (c : cell) :
  isin sel c = true <-> exists b, c = Str b /\ In b sel.
Proof.
  destruct c as [|t]; simpl.
  - split; [discriminate|]. now intros [b [H _]].
  - rewrite (has_label_In sel t : existsb (str_eqb t) sel = true <-> _).
    split.
    + intros H. now exists t.
    + now intros [b [[= ->] H]].
Qed.

Lemma filter_all {A} (f : A -> bool) (l : list A) :
  filter f l = l <-> forall x, In x l -> f x = true.
Proof.
  induction l as [|x l IH]; simpl; [tauto|].
  destruct (f x) eqn:E; split.
  - intros [= H] y [<-|Hy]; [exact E|]. now apply IH.
  - intros H. f_equal. apply IH. intros y Hy. apply H. now right.
  - intros H. exfalso.
    pose proof (filter_length_le f l) as Hl.
    rewrite H in Hl. simpl in Hl. lia.
  - intros H. specialize (H x (or_introl eq_refl)). congruence.
Qed.

(** C9 (as amended): the brand filter returns, in table order, the rows
    whose brand is one of the selected ones and no other; nothing for an
    empty selection; with every brand of the table selected, the rows
    that have a brand, which is the whole table exactly when no row lacks
    its brand. *)
Theorem filterByBrandSubset_member (df : list Row) (sel : list str) :
  filterByBrandSubset df sel = filter (fun r => isin sel (Marca r)) df
  /\ (forall r, In r (filterByBrandSubset df sel)
                <-> In r df /\ exists b, Marca r = Str b /\ In b sel)
  /\ filterByBrandSubset df [] = []
  /\ ((forall b, In (Str b) (map Marca df) -> In b sel) ->
      filterByBrandSubset df sel = filter (fun r => negb (isna (Marca r))) df
      /\ (filterByBrandSubset df sel = df <-> ~ In NA (map Marca df))).
Proof.
  unfold filterByBrandSubset. rewrite !boolean_index_filter.
  split; [reflexivity|]. split; [|split].
  - intros r. rewrite filter_In, isin_In. reflexivity.
  - induction df as [|r df IH]; simpl; [reflexivity|].
    destruct (Marca r); simpl; exact IH.
  - intros Hall.
    assert (E : filter (fun r => isin sel (Marca r)) df
                = filter (fun r => negb (isna (Marca r))) df).
    { apply filter_ext_in. intros r Hr.
      destruct (Marca r) as [|b] eqn:Em; [reflexivity|]. simpl.
      apply (has_label_In sel b), Hall. rewrite <- Em. now apply in_map. }
    split; [exact E|]. rewrite E, filter_all. split.
    + intros H Hin. apply in_map_iff in Hin. destruct Hin as [r [Hr Hin]].
      specialize (H r Hin). rewrite Hr in H. discriminate H.
    + intros H r Hr. destruct (Marca r) eqn:Em; [|reflexivity].
      exfalso. apply H. rewrite <- Em. now apply in_map.
Qed.

(** ** Sorting *)

Lemma take_cons {A} (l : list A) (i : nat) (idx : list nat) (x : A) :
  nth_error l i = Some x -> take l (i :: idx) = x :: take l idx.
Proof. unfold take. simpl. now intros ->. Qed.

Lemma take_seq_app {A} (l : list A) : forall pre,
  take (pre ++ l) (seq (List.length pre) (List.length l)) = l.
Proof.
  induction l as [|x l IH]; intros pre; [reflexivity|].
  simpl List.length. simpl seq.
  rewrite (take_cons _ _ _ x).
  - f_equal. specialize (IH (pre ++ [x])).
    rewrite <- app_assoc, length_app in IH. simpl in IH.
    now rewrite Nat.add_1_r in IH.
  - rewrite nth_error_app2 by lia. now rewrite Nat.sub_diag.
Qed.

Lemma take_seq {A} (l : list A) : take l (seq 0 (List.length l)) = l.
Proof. exact (take_seq_app l []). Qed.

Lemma map_take {A} (by_ : A -> Z) (l : list A) (idx : list nat) :
  Forall (fun i => (i < List.length l)%nat) idx ->
  map by_ (take l idx) = map (value_at (map by_ l)) idx.
Proof.
  induction 1 as [|i idx Hi _ IH]; [reflexivity|].
  destruct (nth_error l i) as [x|] eqn:E.
  - rewrite (take_cons _ _ _ x E). simpl. rewrite IH. f_equal.
    unfold value_at. rewrite (nth_map_lt _ _ _ x) by exact Hi.
    f_equal. symmetry. now apply nth_error_nth.
  - apply nth_error_None in E. lia.
Qed.

Lemma map_nth_seq {A} (l : list A) (d : A) :
  map (fun k => nth k l d) (seq 0 (List.length l)) = l.
Proof.
  apply (nth_ext _ _ d d).
  - now rewrite length_map, length_seq.
  - intros n Hn. rewrite length_map, length_seq in Hn.
    rewrite (nth_map_lt _ _ _ O) by now rewrite length_seq.
    now rewrite seq_nth.
Qed.

Lemma StronglySorted_snoc {A} (R : A -> A -> Prop) (l : list A) (x : A) :
  StronglySorted R l -> Forall (fun y => R y x) l -> StronglySorted R (l ++ [x]).
Proof.
  induction 1 as [|y l Hl IH Hy]; simpl; intros Hx.
  - repeat constructor.
  - inversion Hx; subst. constructor; [now apply IH|].
    apply Forall_app. split; [exact Hy|now repeat constructor].
Qed.

Lemma StronglySorted_rev {A} (R : A -> A -> Prop) (l : list A) :
  StronglySorted R l -> StronglySorted (fun a b => R b a) (rev l).
Proof.
  induction 1 as [|x l Hl IH Hx]; simpl; [constructor|].
  apply StronglySorted_snoc; [exact IH|].
  now apply Forall_rev.
Qed.

Lemma StronglySorted_map {A B} (R : B -> B -> Prop) (f : A -> B) (l : list A) :
  StronglySorted R (map f l) -> StronglySorted (fun a b => R (f a) (f b)) l.
Proof.
  induction l as [|x l IH]; simpl; intros H; [constructor|].
  apply StronglySorted_inv in H. destruct H as [Hl Hx].
  constructor; [now apply IH|].
  now rewrite Forall_map in Hx.
Qed.

Lemma StronglySorted_firstn {A} (R : A -> A -> Prop) (n : nat) : forall l,
  StronglySorted R l -> StronglySorted R (firstn n l).
Proof.
  induction n as [|n IH]; intros l H; [constructor|].
  destruct H as [|x l Hl Hx]; simpl; constructor; [now apply IH|].
  apply Forall_forall. intros y Hy.
  rewrite Forall_forall in Hx. apply Hx.
  rewrite <- (firstn_skipn n l). apply in_app_iff. now left.
Qed.

Section SortValues.

Context `{ArgSort}.

Lemma nargsort_desc_perm (items : list Z) :
  Permutation (nargsort_desc items) (seq 0 (List.length items)).
Proof.
  unfold nargsort_desc. rewrite <- Permutation_rev.
  set (n := List.length items).
  assert (E : map (fun k => nth k (rev (seq 0 n)) O) (seq 0 n) = rev (seq 0 n)).
  { pose proof (map_nth_seq (rev (seq 0 n)) O) as E.
    now rewrite length_rev, length_seq in E. }
  apply (Permutation_trans
           (l' := map (fun k => nth k (rev (seq 0 n)) O) (seq 0 n))).
  - apply Permutation_map.
    pose proof (argsort_perm (rev items)) as Hp.
    now rewrite length_rev in Hp.
  - rewrite E. symmetry. apply Permutation_rev.
Qed.

Lemma nargsort_desc_bound (items : list Z) :
  Forall (fun i => (i < List.length items)%nat) (nargsort_desc items).
Proof.
  apply Forall_forall. intros i Hi.
  apply (Permutation_in _ (nargsort_desc_perm items)) in Hi.
  apply in_seq in Hi. lia.
Qed.

Lemma nargsort_desc_sorted (items : list Z) :
  StronglySorted (fun a b => b <= a) (map (value_at items) (nargsort_desc items)).
Proof.
  unfold nargsort_desc. rewrite map_rev. apply StronglySorted_rev.
  rewrite map_map.
  rewrite (map_ext_in _ (value_at (rev items))); [apply argsort_sorted|].
  intros k Hk.
  apply (Permutation_in _ (argsort_perm (rev items))) in Hk.
  apply in_seq in Hk. rewrite length_rev in Hk.
  set (n := List.length items) in *.
  unfold value_at.
  rewrite rev_nth by (rewrite length_seq; lia).
  rewrite length_seq, seq_nth by lia.
  rewrite rev_nth by (fold n; lia). reflexivity.
Qed.

(** [sort_values] returns the same rows, largest key first. *)
Lemma sort_values_desc_perm {A} (by_ : A -> Z) (l : list A) :
  Permutation (sort_values_desc by_ l) l.
Proof.
  unfold sort_values_desc.
  apply (Permutation_trans (l' := take l (seq 0 (List.length l))));
    [|now rewrite take_seq].
  unfold take. apply Permutation_flat_map.
  pose proof (nargsort_desc_perm (map by_ l)) as Hp.
  now rewrite length_map in Hp.
Qed.

Lemma sort_values_desc_sorted {A} (by_ : A -> Z) (l : list A) :
  StronglySorted (fun a b => by_ b <= by_ a) (sort_values_desc by_ l).
Proof.
  apply (StronglySorted_map (fun a b => b <= a)).
  unfold sort_values_desc. rewrite map_take.
  - apply nargsort_desc_sorted.
  - pose proof (nargsort_desc_bound (map by_ l)) as Hb.
    now rewrite length_map in Hb.
Qed.

End SortValues.

(** ** Grouping *)

Lemma str_compare_eq (a : str) : forall b, str_compare a b = Eq <-> a = b.
Proof.
  induction a as [|x a IH]; intros [|y b]; simpl; try (split; congruence).
  destruct (x ?= y)%N eqn:E.
  - apply N.compare_eq_iff in E. subst y. rewrite IH. split; congruence.
  - split; [discriminate|]. intros [= -> _]. rewrite N.compare_refl in E. discriminate.
  - split; [discriminate|]. intros [= -> _]. rewrite N.compare_refl in E. discriminate.
Qed.

Lemma str_compare_antisym (a : str) : forall b,
  str_compare b a = CompOpp (str_compare a b).
Proof.
  induction a as [|x a IH]; intros [|y b]; simpl; try reflexivity.
  rewrite (N.compare_antisym x y).
  destruct (x ?= y)%N; simpl; [apply IH|reflexivity|reflexivity].
Qed.

Lemma str_compare_lt_cons (x y : N) (a b : str) :
  str_compare (x :: a) (y :: b) = Lt
  <-> (x < y)%N \/ (x = y /\ str_compare a b = Lt).
Proof.
  simpl. destruct (x ?= y)%N eqn:E.
  - apply N.compare_eq_iff in E. subst. split; [now right|].
    intros [H|[_ H]]; [lia|exact H].
  - apply N.compare_lt_iff in E. split; [now left|reflexivity].
  - apply N.compare_gt_iff in E. split; [discriminate|].
    intros [H|[H _]]; lia.
Qed.

Lemma str_compare_lt_trans (a : str) : forall b c,
  str_compare a b = Lt -> str_compare b c = Lt -> str_compare a c = Lt.
Proof.
  induction a as [|x a IH]; intros [|y b] [|z c]; try (simpl; congruence).
  rewrite !str_compare_lt_cons.
  intros [H1|[-> H1]] [H2|[-> H2]]; try (left; lia).
  right. split; [reflexivity|]. now apply (IH b c).
Qed.

(** *** 64-bit sums *)

Lemma int64_wrap_small (z : Z) : - 2 ^ 63 <= z < 2 ^ 63 -> int64_wrap z = z.
Proof. intros H. unfold int64_wrap. rewrite Z.mod_small; lia. Qed.

Lemma int64_wrap_add_l (a b : Z) : int64_wrap (int64_wrap a + b) = int64_wrap (a + b).
Proof.
  unfold int64_wrap. f_equal.
  replace ((a + 2 ^ 63) mod 2 ^ 64 - 2 ^ 63 + b + 2 ^ 63)
    with ((a + 2 ^ 63) mod 2 ^ 64 + b) by ring.
  rewrite Zplus_mod_idemp_l. f_equal. ring.
Qed.

Lemma exact_sum_cons (x : Z) (xs : list Z) : exact_sum (x :: xs) = x + exact_sum xs.
Proof. reflexivity. Qed.

Lemma exact_sum_app (xs ys : list Z) :
  exact_sum (xs ++ ys) = exact_sum xs + exact_sum ys.
Proof. induction xs as [|x xs IH]; simpl; [reflexivity|]. rewrite IH. ring. Qed.

Lemma exact_sum_perm (l l' : list Z) : Permutation l l' -> exact_sum l = exact_sum l'.
Proof. induction 1; simpl; lia. Qed.

Lemma fold_add64 (xs : list Z) : forall a,
  fold_left add64 xs (int64_wrap a) = int64_wrap (a + exact_sum xs).
Proof.
  induction xs as [|x xs IH]; simpl; intros a.
  - f_equal. ring.
  - unfold add64 at 2. rewrite int64_wrap_add_l, IH. f_equal. ring.
Qed.

(** A 64-bit sum is the exact sum, wrapped once. *)
Lemma sum_wrap (xs : list Z) : sum xs = int64_wrap (exact_sum xs).
Proof. exact (fold_add64 xs 0). Qed.

Lemma sum_snoc (xs : list Z) (x : Z) : sum (xs ++ [x]) = add64 (sum xs) x.
Proof. unfold sum. now rewrite fold_left_app. Qed.

Lemma exact_sum_nonneg (xs : list Z) : Forall (fun x => 0 <= x) xs -> 0 <= exact_sum xs.
Proof. induction 1; simpl; lia. Qed.

Lemma exact_sum_filter (f : Row -> bool) (df : list Row) :
  Forall (fun r => 0 <= Vendidos r) df ->
  0 <= exact_sum (map Vendidos (filter f df)) <= exact_sum (map Vendidos df).
Proof.
  induction 1 as [|r df Hr _ IH]; simpl; [lia|].
  destruct (f r); simpl; lia.
Qed.

(** Without overflow the 64-bit sum over any selection of rows is exact. *)
Lemma sum_exact (f : Row -> bool) (df : list Row) :
  no_overflow df ->
  sum (map Vendidos (filter f df)) = exact_sum (map Vendidos (filter f df)).
Proof.
  intros [Hpos Hlt]. rewrite sum_wrap. apply int64_wrap_small.
  pose proof (exact_sum_filter f df Hpos). lia.
Qed.

Lemma filter_true {A} (l : list A) : filter (fun _ => true) l = l.
Proof. induction l as [|x l IH]; simpl; [reflexivity|]. now rewrite IH. Qed.

Lemma sum_exact_all (df : list Row) :
  no_overflow df -> sum (map Vendidos df) = exact_sum (map Vendidos df).
Proof.
  intros H. pose proof (sum_exact (fun _ => true) df H) as E.
  now rewrite filter_true in E.
Qed.

Lemma int64_wrap_add_r (a b : Z) : int64_wrap (a + int64_wrap b) = int64_wrap (a + b).
Proof. rewrite Z.add_comm, int64_wrap_add_l. f_equal. ring. Qed.

Lemma int64_wrap_idem (a : Z) : int64_wrap (int64_wrap a) = int64_wrap a.
Proof.
  pose proof (int64_wrap_add_l a 0) as H. now rewrite !Z.add_0_r in H.
Qed.

(** Sums that agree in plain arithmetic agree in 64 bits. *)
Ltac wrap_eq :=
  unfold add64;
  repeat (rewrite int64_wrap_add_l || rewrite int64_wrap_add_r
          || rewrite int64_wrap_idem || rewrite <- Z.add_assoc);
  f_equal; try change (exact_sum []) with 0; try ring.

(** The 64-bit sum of two parts of a column is the 64-bit sum of their
    64-bit sums. *)
Lemma sum_app64 (xs ys : list Z) : sum (xs ++ ys) = add64 (sum xs) (sum ys).
Proof.
  unfold add64. rewrite !sum_wrap, exact_sum_app.
  now rewrite int64_wrap_add_l, int64_wrap_add_r.
Qed.

Lemma sum_perm (l l' : list Z) : Permutation l l' -> sum l = sum l'.
Proof. intros H. rewrite !sum_wrap. f_equal. now apply exact_sum_perm. Qed.

Lemma no_overflow_int64 (df : list Row) : no_overflow df -> int64_column df.
Proof.
  intros [Hpos Hlt]. unfold int64_column.
  induction df as [|r df IH]; [constructor|].
  apply Forall_cons_iff in Hpos. destruct Hpos as [Hr Hpos].
  pose proof (exact_sum_nonneg _ (proj2 (Forall_map _ _ _) Hpos)) as Hs.
  simpl in Hlt. constructor; [lia|]. apply IH; [exact Hpos|lia].
Qed.

(** The bounds of a table that is written out. *)
Ltac table_bounds :=
  unfold no_overflow, int64_column;
  repeat match goal with
         | |- _ /\ _ => split
         | |- Forall _ _ => constructor
         end;
  cbn; lia.

Lemma no_overflow_remove (before after : list Row) (r : Row) :
  no_overflow (before ++ r :: after) -> no_overflow (before ++ after).
Proof.
  intros [Hpos Hlt]. apply Forall_app in Hpos. destruct Hpos as [Hb Ha].
  apply Forall_cons_iff in Ha. destruct Ha as [Hr Ha].
  split; [apply Forall_app; now split|].
  rewrite map_app, exact_sum_app in *. simpl in Hlt. lia.
Qed.

Lemma lookup_above (k : str) (g : list (str * Z)) :
  Forall (fun x => str_compare k (fst x) = Lt) g -> lookup k g = None.
Proof.
  induction 1 as [|[k' v'] g Hx _ IH]; simpl; [reflexivity|].
  destruct (str_eqb k k') eqn:E; [|exact IH].
  apply str_eqb_eq in E. subst k'. simpl in Hx.
  assert (str_compare k k = Eq) by now apply str_compare_eq.
  congruence.
Qed.

Lemma key_lt_Forall_trans (a b : str * Z) (g : list (str * Z)) :
  key_lt a b -> Forall (key_lt b) g -> Forall (key_lt a) g.
Proof.
  intros Hab Hb. apply Forall_forall. intros x Hx.
  rewrite Forall_forall in Hb. unfold key_lt in *.
  now apply (str_compare_lt_trans _ (fst b)), Hb.
Qed.

Lemma acumular_keys (k : str) (v : Z) (g : list (str * Z)) (x : str * Z) :
  In x (acumular k v g) -> fst x = k \/ In (fst x) (map fst g).
Proof.
  induction g as [|[k' v'] g IH]; simpl.
  - intros [<-|[]]. now left.
  - destruct (str_compare k k') eqn:E; simpl.
    + intros [<-|H]; simpl; [right; now left|].
      right. right. now apply in_map.
    + intros [<-|[<-|H]]; simpl; [now left|right; now left|].
      right. right. now apply in_map.
    + intros [<-|H]; simpl; [right; now left|].
      destruct (IH H) as [H'|H']; [now left|right; now right].
Qed.

Lemma acumular_sorted (k : str) (v : Z) (g : list (str * Z)) :
  StronglySorted key_lt g -> StronglySorted key_lt (acumular k v g).
Proof.
  induction 1 as [|[k' v'] g Hg IH Hx]; simpl; [repeat constructor|].
  destruct (str_compare k k') eqn:E.
  - apply str_compare_eq in E. subst k'. constructor; assumption.
  - constructor; [now constructor|].
    constructor; [exact E|].
    now apply (key_lt_Forall_trans _ (k', v')).
  - constructor; [exact IH|].
    apply Forall_forall. intros x Hin.
    apply acumular_keys in Hin. destruct Hin as [Hin|Hin].
    + unfold key_lt. simpl. rewrite Hin, str_compare_antisym, E. reflexivity.
    + rewrite Forall_forall in Hx. apply in_map_iff in Hin.
      destruct Hin as [y [Hy Hin]]. specialize (Hx y Hin).
      unfold key_lt in *. now rewrite <- Hy.
Qed.

Lemma lookup_acumular (k k0 : str) (v0 : Z) (g : list (str * Z)) :
  StronglySorted key_lt g ->
  lookup k (acumular k0 v0 g)
  = if str_eqb k k0
    then Some (add64 (match lookup k0 g with Some v' => v' | None => 0 end) v0)
    else lookup k g.
Proof.
  induction 1 as [|[k' v'] g Hg IH Hx]; simpl; [reflexivity|].
  destruct (str_compare k0 k') eqn:E; simpl.
  - apply str_compare_eq in E. subst k'. rewrite str_eqb_refl.
    destruct (str_eqb k k0); reflexivity.
  - assert (Hne : str_eqb k0 k' = false).
    { apply str_eqb_neq. intros ->.
      assert (str_compare k' k' = Eq) by now apply str_compare_eq.
      congruence. }
    rewrite Hne.
    rewrite (lookup_above k0 g); [reflexivity|].
    now apply (key_lt_Forall_trans (k0, 0) (k', v')).
  - assert (Hne : str_eqb k0 k' = false).
    { apply str_eqb_neq. intros ->.
      assert (str_compare k' k' = Eq) by now apply str_compare_eq.
      congruence. }
    rewrite Hne, IH.
    destruct (str_eqb k k') eqn:E1; [|reflexivity].
    apply str_eqb_eq in E1. subst k'.
    assert (Hne' : str_eqb k k0 = false).
    { apply str_eqb_neq. apply str_eqb_neq in Hne. congruence. }
    now rewrite Hne'.
Qed.

Lemma In_lookup (k : str) (v : Z) (g : list (str * Z)) :
  StronglySorted key_lt g -> (In (k, v) g <-> lookup k g = Some v).
Proof.
  induction 1 as [|[k' v'] g Hg IH Hx]; simpl; [split; [tauto|discriminate]|].
  destruct (str_eqb k k') eqn:E.
  - apply str_eqb_eq in E. subst k'. split.
    + intros [[= ->]|Hin]; [reflexivity|].
      rewrite Forall_forall in Hx. specialize (Hx _ Hin).
      unfold key_lt in Hx. simpl in Hx.
      assert (str_compare k k = Eq) by now apply str_compare_eq.
      congruence.
    + intros [= ->]. now left.
  - rewrite <- IH. apply str_eqb_neq in E. split.
    + intros [[= -> _]|Hin]; [congruence|exact Hin].
    + intros Hin. now right.
Qed.

Lemma sorted_keys_NoDup (g : list (str * Z)) :
  StronglySorted key_lt g -> NoDup (map fst g).
Proof.
  induction 1 as [|[k v] g Hg IH Hx]; simpl; constructor; [|exact IH].
  intros Hin. apply in_map_iff in Hin. destruct Hin as [y [Hy Hin]].
  rewrite Forall_forall in Hx. specialize (Hx y Hin).
  unfold key_lt in Hx. simpl in Hx. rewrite Hy in Hx.
  assert (str_compare k k = Eq) by now apply str_compare_eq.
  congruence.
Qed.

Lemma total_of_absent (k : str) (df : list Row) :
  has_brand k df = false -> total_of k df = 0.
Proof.
  unfold has_brand, total_of. induction df as [|r df IH]; simpl; [reflexivity|].
  intros H. apply orb_false_iff in H. destruct H as [H1 H2].
  rewrite H1. now apply IH.
Qed.

Lemma total_of_snoc (k : str) (df : list Row) (r : Row) :
  total_of k (df ++ [r])
  = if eq_str k (Marca r) then add64 (total_of k df) (Vendidos r)
    else total_of k df.
Proof.
  unfold total_of. rewrite filter_app, map_app. simpl.
  destruct (eq_str k (Marca r)); simpl.
  - apply sum_snoc.
  - now rewrite app_nil_r.
Qed.

Lemma has_brand_snoc (k : str) (df : list Row) (r : Row) :
  has_brand k (df ++ [r]) = has_brand k df || eq_str k (Marca r).
Proof.
  unfold has_brand. rewrite existsb_app. simpl. now rewrite orb_false_r.
Qed.

Lemma acumular_fila_totals (seen : list Row) (g : list (str * Z)) (r : Row) :
  totals_of seen g -> totals_of (seen ++ [r]) (acumular_fila g r).
Proof.
  intros [Hs Hl]. unfold acumular_fila.
  destruct (Marca r) as [|k0] eqn:Em.
  - split; [exact Hs|]. intros k.
    rewrite has_brand_snoc, total_of_snoc, Em. simpl.
    rewrite orb_false_r. apply Hl.
  - split; [now apply acumular_sorted|]. intros k.
    rewrite lookup_acumular by exact Hs.
    rewrite has_brand_snoc, total_of_snoc, Em. simpl.
    destruct (str_eqb k0 k) eqn:E.
    + apply str_eqb_eq in E. subst k0. rewrite str_eqb_refl, orb_true_r.
      rewrite Hl. destruct (has_brand k seen) eqn:Hb; [reflexivity|].
      now rewrite (total_of_absent k seen Hb).
    + assert (E' : str_eqb k k0 = false).
      { apply str_eqb_neq. apply str_eqb_neq in E. congruence. }
      rewrite E', orb_false_r. apply Hl.
Qed.

Lemma fold_acumular_totals (df : list Row) : forall seen g,
  totals_of seen g -> totals_of (seen ++ df) (fold_left acumular_fila df g).
Proof.
  induction df as [|r df IH]; simpl; intros seen g H.
  - now rewrite app_nil_r.
  - replace (seen ++ r :: df) with ((seen ++ [r]) ++ df)
      by now rewrite <- app_assoc.
    apply IH. now apply acumular_fila_totals.
Qed.

Lemma groupby_sum_totals (df : list Row) : totals_of df (groupby_sum df).
Proof.
  apply (fold_acumular_totals df [] []). split; [constructor|reflexivity].
Qed.

Lemma has_brand_In (k : str) (df : list Row) :
  has_brand k df = true <-> In (Str k) (map Marca df).
Proof.
  unfold has_brand. rewrite existsb_exists, in_map_iff. split.
  - intros [r [Hin Hr]]. exists r. split; [|exact Hin].
    destruct (Marca r) as [|t]; simpl in Hr; [discriminate|].
    apply str_eqb_eq in Hr. now subst.
  - intros [r [Hr Hin]]. exists r. split; [exact Hin|].
    rewrite Hr. simpl. apply str_eqb_refl.
Qed.

(** One group per brand met in the table, holding the total sold of the
    rows of that brand. *)
Lemma groupby_sum_groups (df : list Row) :
  NoDup (map fst (groupby_sum df))
  /\ forall k v, In (k, v) (groupby_sum df)
                 <-> In (Str k) (map Marca df) /\ v = total_of k df.
Proof.
  destruct (groupby_sum_totals df) as [Hs Hl].
  split; [now apply sorted_keys_NoDup|].
  intros k v. rewrite (In_lookup k v _ Hs), Hl, <- has_brand_In.
  destruct (has_brand k df); split.
  - intros [= <-]. now split.
  - now intros [_ ->].
  - discriminate.
  - intros [H _]. discriminate.
Qed.

(** ** The sample sorts meet the contract *)

Lemma insert_index_perm (before : nat -> nat -> bool) (i : nat) (l : list nat) :
  Permutation (insert_index before i l) (i :: l).
Proof.
  induction l as [|j l IH]; simpl; [reflexivity|].
  destruct (before i j); [reflexivity|].
  rewrite IH. apply perm_swap.
Qed.

Lemma insertion_argsort_perm (before : list Z -> nat -> nat -> bool) (xs : list Z) :
  Permutation (insertion_argsort before xs) (seq 0 (List.length xs)).
Proof.
  unfold insertion_argsort. induction (seq 0 (List.length xs)) as [|i l IH]; simpl.
  - reflexivity.
  - rewrite insert_index_perm. now apply perm_skip.
Qed.

Section InsertionSorted.

Variable v : nat -> Z.
Variable before : nat -> nat -> bool.
Hypothesis before_true : forall i j, before i j = true -> v i <= v j.
Hypothesis before_false : forall i j, before i j = false -> v j <= v i.

Let le_v (a b : nat) : Prop := v a <= v b.

Lemma insert_index_sorted (i : nat) (l : list nat) :
  StronglySorted le_v l -> StronglySorted le_v (insert_index before i l).
Proof.
  induction 1 as [|j l Hl IH Hj]; simpl; [repeat constructor|].
  destruct (before i j) eqn:E.
  - constructor; [now constructor|].
    constructor; [now apply before_true|].
    apply Forall_forall. intros k Hk. rewrite Forall_forall in Hj.
    specialize (Hj k Hk). apply before_true in E. unfold le_v in *. lia.
  - constructor; [exact IH|].
    apply Forall_forall. intros k Hk.
    apply (Permutation_in _ (insert_index_perm before i l)) in Hk.
    destruct Hk as [<-|Hk]; [now apply before_false|].
    rewrite Forall_forall in Hj. now apply Hj.
Qed.

Lemma fold_insert_index_sorted (l : list nat) :
  StronglySorted le_v (fold_right (insert_index before) [] l).
Proof.
  induction l as [|i l IH]; simpl; [constructor|].
  now apply insert_index_sorted.
Qed.

End InsertionSorted.

Lemma StronglySorted_map_inv {A B} (R : B -> B -> Prop) (f : A -> B) (l : list A) :
  StronglySorted (fun a b => R (f a) (f b)) l -> StronglySorted R (map f l).
Proof.
  induction 1 as [|x l Hl IH Hx]; simpl; constructor; [exact IH|].
  now rewrite Forall_map.
Qed.

Lemma stable_sorted (xs : list Z) :
  StronglySorted Z.le (map (value_at xs) (insertion_argsort before_stable xs)).
Proof.
  apply StronglySorted_map_inv, fold_insert_index_sorted; unfold before_stable.
  - intros i j H. now apply Z.leb_le.
  - intros i j H. apply Z.leb_gt in H. lia.
Qed.

Lemma ascending_sorted (l : list Z) : ascending l = true -> StronglySorted Z.le l.
Proof.
  intros H. apply Sorted_StronglySorted; [intros x y z; apply Z.le_trans|].
  induction l as [|x [|y l] IH]; [constructor|repeat constructor|].
  cbn [ascending] in H. apply andb_true_iff in H. destruct H as [Hxy H].
  constructor; [now apply IH|]. constructor. now apply Z.leb_le.
Qed.

Lemma is_argsort_sound (xs : list Z) (indexer : list nat) :
  is_argsort xs indexer = true ->
  Permutation indexer (seq 0 (List.length xs))
  /\ StronglySorted Z.le (map (value_at xs) indexer).
Proof.
  unfold is_argsort. intros H.
  apply andb_true_iff in H. destruct H as [H Hs].
  apply andb_true_iff in H. destruct H as [Hl Hi].
  split; [|now apply ascending_sorted].
  apply Permutation_sym, NoDup_Permutation_bis.
  - apply seq_NoDup.
  - apply Nat.eqb_eq in Hl. rewrite Hl, length_seq. lia.
  - intros i Hin. rewrite forallb_forall in Hi. specialize (Hi i Hin).
    apply existsb_exists in Hi. destruct Hi as [j [Hj E]].
    apply Nat.eqb_eq in E. now subst.
Qed.

Lemma checked_aquicksort_perm (xs : list Z) :
  Permutation (checked_aquicksort xs) (seq 0 (List.length xs)).
Proof.
  unfold checked_aquicksort. destruct (is_argsort xs (aquicksort xs)) eqn:E.
  - now apply is_argsort_sound.
  - apply insertion_argsort_perm.
Qed.

Lemma checked_aquicksort_sorted (xs : list Z) :
  StronglySorted Z.le (map (value_at xs) (checked_aquicksort xs)).
Proof.
  unfold checked_aquicksort. destruct (is_argsort xs (aquicksort xs)) eqn:E.
  - now apply is_argsort_sound.
  - apply stable_sorted.
Qed.

Definition stable_argsort : ArgSort :=
  {| argsort := insertion_argsort before_stable;
     argsort_perm := insertion_argsort_perm before_stable;
     argsort_sorted := stable_sorted |}.

Definition numpy_argsort : ArgSort :=
  {| argsort := checked_aquicksort;
     argsort_perm := checked_aquicksort_perm;
     argsort_sorted := checked_aquicksort_sorted |}.

(** On columns of two rows numpy's routine keeps ties in place, as the
    insertion sort does. *)
Lemma numpy_argsort_short :
  topBrandsByVolume (H := numpy_argsort) table_AB 10 = [(lit "A", 5); (lit "B", 5)]
  /\ topBrandsByVolume (H := numpy_argsort) table_BA 10 = [(lit "A", 5); (lit "B", 5)]
  /\ topProductsForBrand (H := numpy_argsort) table_AA (lit "A") 10 = table_AA.
Proof. repeat split; vm_compute; reflexivity. Qed.

(** On the sold counts of [table_turns], as [sort_values] hands them
    over, the answer of numpy's routine is taken as it is. *)
Lemma numpy_argsort_table_turns :
  argsort (ArgSort := numpy_argsort) (rev (map Vendidos table_turns))
  = aquicksort (rev (map Vendidos table_turns)).
Proof. vm_compute. reflexivity. Qed.

(** ** Rankings *)

(** C4 (as amended): [topBrandsByVolume] makes one group per brand found
    in the table, the groups in ascending order of the brand, each holding
    the sum of [Vendidos] over the rows of that brand in the 64-bit
    arithmetic of the column, which is the sum as arithmetic has it when
    no count is negative and all the counts of the table together stay
    below 2^63; it returns at most [limit] groups, the first ones of an
    arrangement of all the groups by descending sum. Which of several
    groups with equal sums comes first is not fixed. *)
Theorem topBrandsByVolume_ranking `{ArgSort} (df : list Row) (limit : nat) :
  StronglySorted key_lt (groupby_sum df)
  /\ NoDup (map fst (groupby_sum df))
  /\ (forall k, In k (map fst (groupby_sum df)) <-> In (Str k) (map Marca df))
  /\ (int64_column df ->
      forall k v, In (k, v) (groupby_sum df)
                  <-> In (Str k) (map Marca df) /\ v = int64_wrap (exact_total k df))
  /\ (no_overflow df ->
      forall k v, In (k, v) (groupby_sum df)
                  <-> In (Str k) (map Marca df) /\ v = exact_total k df)
  /\ (exists ranking,
        Permutation ranking (groupby_sum df)
        /\ StronglySorted by_sold_desc ranking
        /\ topBrandsByVolume df limit = firstn limit ranking)
  /\ StronglySorted by_sold_desc (topBrandsByVolume df limit)
  /\ (List.length (topBrandsByVolume df limit) <= limit)%nat.
Proof.
  destruct (groupby_sum_groups df) as [Hnd Hg].
  split; [apply groupby_sum_totals|].
  split; [exact Hnd|].
  split.
  { intros k. rewrite in_map_iff. split.
    - intros [[k' v] [Hk Hin]]. simpl in Hk. subst k'. now apply Hg in Hin.
    - intros Hin. exists (k, total_of k df). split; [reflexivity|].
      apply Hg. now split. }
  split.
  { intros _ k v. rewrite Hg. unfold total_of, exact_total. now rewrite sum_wrap. }
  split; [|split; [|split]].
  - intros Hno k v. rewrite Hg. unfold total_of, exact_total.
    now rewrite (sum_exact _ df Hno).
  - exists (sort_values_desc snd (groupby_sum df)).
    split; [apply sort_values_desc_perm|].
    split; [apply sort_values_desc_sorted|reflexivity].
  - apply StronglySorted_firstn, sort_values_desc_sorted.
  - apply firstn_le_length.
Qed.

Lemma topBrandsByVolume_ranking_witness :
  topBrandsByVolume (H := stable_argsort)
    [listing "B" "uno" fzero 3; listing "A" "dos" fzero 5;
     listing "B" "tres" fzero 4; unbranded "cuatro" 9] 1
  = [(lit "B", 7)]
  /\ StronglySorted by_sold_desc (topBrandsByVolume (H := stable_argsort) table_BA 10)
  /\ no_overflow table_BA
  /\ (In (lit "B", 5) (groupby_sum table_BA)
      <-> In (Str (lit "B")) (map Marca table_BA) /\ 5 = exact_total (lit "B") table_BA)
  /\ int64_column table_big
  /\ (In (lit "A", 2 ^ 62) (groupby_sum table_big)
      <-> In (Str (lit "A")) (map Marca table_big)
          /\ 2 ^ 62 = int64_wrap (exact_total (lit "A") table_big)).
Proof.
  split; [reflexivity|].
  assert (Hno : no_overflow table_BA) by table_bounds.
  assert (Hint : int64_column table_big) by table_bounds.
  destruct (topBrandsByVolume_ranking (H := stable_argsort) table_BA 10)
    as [_ [_ [_ [_ [Hex [_ [Hs _]]]]]]].
  split; [exact Hs|]. split; [exact Hno|].
  split; [exact (Hex Hno (lit "B") 5)|]. split; [exact Hint|].
  exact (proj1 (proj2 (proj2 (proj2
           (topBrandsByVolume_ranking (H := stable_argsort) table_big 10))))
           Hint (lit "A") (2 ^ 62)).
Defined.

(** C4 (as stated) fails: the groups are formed in ascending order of the
    brand, not in the order the brands are met. With the sort numpy runs
    on so short a column, which keeps ties in place, [table_BA] ranks A
    before B although B comes first in the table. *)
Lemma topBrandsByVolume_ties :
  topBrandsByVolume (H := stable_argsort) table_BA 10 = [(lit "A", 5); (lit "B", 5)]
  /\ topBrandsByVolume_spec table_BA 10 = [(lit "B", 5); (lit "A", 5)]
  /\ topBrandsByVolume (H := stable_argsort) table_BA 10
     <> topBrandsByVolume_spec table_BA 10.
Proof.
  repeat split; try (vm_compute; reflexivity); vm_compute; discriminate.
Qed.

(** C6 (as amended): [topProductsForBrand] returns rows of the table whose
    brand is the given one, at most [limit] of them, the first ones of an
    arrangement of all such rows by descending [Vendidos]. Which of several
    rows with equal [Vendidos] comes first is not fixed. *)
Theorem topProductsForBrand_ranking `{ArgSort} (df : list Row) (marca_sel : str)
        (limit : nat) :
  (exists ranking,
     Permutation ranking (filter (fun r => eq_str marca_sel (Marca r)) df)
     /\ StronglySorted by_Vendidos_desc ranking
     /\ topProductsForBrand df marca_sel limit = firstn limit ranking)
  /\ (forall r, In r (topProductsForBrand df marca_sel limit) ->
                In r df /\ Marca r = Str marca_sel)
  /\ StronglySorted by_Vendidos_desc (topProductsForBrand df marca_sel limit)
  /\ (List.length (topProductsForBrand df marca_sel limit) <= limit)%nat.
Proof.
  unfold topProductsForBrand, head. rewrite boolean_index_filter.
  set (sel := filter _ df).
  split; [|split; [|split]].
  - exists (sort_values_desc Vendidos sel).
    split; [apply sort_values_desc_perm|].
    split; [apply sort_values_desc_sorted|reflexivity].
  - intros r Hr.
    assert (Hin : In r sel).
    { apply (Permutation_in _ (sort_values_desc_perm Vendidos sel)).
      rewrite <- (firstn_skipn limit (sort_values_desc Vendidos sel)).
      apply in_app_iff. now left. }
    apply filter_In in Hin. destruct Hin as [Hin Hb].
    split; [exact Hin|].
    destruct (Marca r) as [|t]; simpl in Hb; [discriminate|].
    apply str_eqb_eq in Hb. now subst.
  - apply StronglySorted_firstn, sort_values_desc_sorted.
  - apply firstn_le_length.
Qed.

Lemma topProductsForBrand_ranking_witness :
  topProductsForBrand (H := stable_argsort)
    [listing "A" "uno" fzero 3; listing "B" "dos" fzero 9;
     listing "A" "tres" fzero 4] (lit "A") 10
  = [listing "A" "tres" fzero 4; listing "A" "uno" fzero 3]
  /\ StronglySorted by_Vendidos_desc
       (topProductsForBrand (H := stable_argsort) table_AA (lit "A") 10).
Proof.
  split; [reflexivity|].
  apply (topProductsForBrand_ranking (H := stable_argsort) table_AA (lit "A") 10).
Defined.

(** C6 (as stated) fails: [sort_values] asks numpy for its quicksort,
    which partitions a column of more than 17 rows and moves equal counts
    past each other. Of the twenty listings of [table_turns] the ten that
    sold 5 times make up the ranking; table order would have them as
    t01, t03, ..., t19, and numpy's routine does not leave them so. *)
Lemma topProductsForBrand_ties :
  map Titulo (topProductsForBrand_spec table_turns (lit "A") 10)
  = map (fun t => Str (lit t))
        ["t01"; "t03"; "t05"; "t07"; "t09"; "t11"; "t13"; "t15"; "t17"; "t19"]%string
  /\ Permutation (topProductsForBrand (H := numpy_argsort) table_turns (lit "A") 10)
                 (topProductsForBrand_spec table_turns (lit "A") 10)
  /\ topProductsForBrand (H := numpy_argsort) table_turns (lit "A") 10
     <> topProductsForBrand_spec table_turns (lit "A") 10.
Proof.
  split; [vm_compute; reflexivity|]. split.
  - apply NoDup_Permutation_bis.
    + vm_compute. repeat (constructor; [simpl; intuition discriminate|]). constructor.
    + vm_compute. lia.
    + intros r Hr. vm_compute in Hr. vm_compute. tauto.
  - vm_compute. discriminate.
Qed.

(** ** Summary metrics *)

(** With nothing selected the box plot is not drawn at all. *)
Lemma box_plot_rows_empty (df : list Row) : box_plot_rows df [] = None.
Proof. reflexivity. Qed.

(** C7: over a table without rows the metrics are defined: no rows, NaN
    as the mean price, nothing sold, no brand. *)
Theorem summaryMetrics_empty :
  summaryMetrics []
  = {| count := 0; meanPrice := S754_nan; totalSold := 0;
       distinctBrandCount := 0 |}.
Proof. reflexivity. Qed.

Lemma groupby_sum_skip (before after : list Row) (r : Row) :
  Marca r = NA -> groupby_sum (before ++ r :: after) = groupby_sum (before ++ after).
Proof.
  intros Hr. unfold groupby_sum. rewrite !fold_left_app. simpl.
  unfold acumular_fila at 2. now rewrite Hr.
Qed.

(** C10: a row without a brand leaves the brand ranking as it is without
    the row, and no group of the ranking stands for it; the row count and
    the total sold of the summary do include it: the total grows by the
    row's count, in the 64-bit arithmetic of the column, which is plain
    arithmetic when no count of the table is negative and all of them
    together stay below 2^63. *)
Theorem unbranded_rows `{ArgSort} (before after : list Row) (r : Row) (limit : nat) :
  Marca r = NA ->
  topBrandsByVolume (before ++ r :: after) limit
    = topBrandsByVolume (before ++ after) limit
  /\ (forall k v, In (k, v) (topBrandsByVolume (before ++ r :: after) limit) ->
                  In (Str k) (map Marca (before ++ after)))
  /\ count (summaryMetrics (before ++ r :: after))
     = S (count (summaryMetrics (before ++ after)))
  /\ (int64_column (before ++ r :: after) ->
      totalSold (summaryMetrics (before ++ r :: after))
      = add64 (totalSold (summaryMetrics (before ++ after))) (Vendidos r))
  /\ (no_overflow (before ++ r :: after) ->
      totalSold (summaryMetrics (before ++ r :: after))
      = totalSold (summaryMetrics (before ++ after)) + Vendidos r).
Proof.
  intros Hr. unfold topBrandsByVolume, head.
  rewrite (groupby_sum_skip before after r Hr).
  split; [reflexivity|]. split; [|split; [|split]].
  - intros k v Hin.
    assert (Hg : In (k, v) (groupby_sum (before ++ after))).
    { apply (Permutation_in _ (sort_values_desc_perm snd _)).
      rewrite <- (firstn_skipn limit (sort_values_desc snd _)).
      apply in_app_iff. now left. }
    now apply groupby_sum_groups in Hg.
  - simpl. rewrite !length_app. simpl. lia.
  - intros _. simpl. unfold add64. rewrite !sum_wrap, int64_wrap_add_l.
    rewrite !map_app, !exact_sum_app. simpl. f_equal. ring.
  - intros Hno. simpl.
    rewrite (sum_exact_all _ Hno).
    rewrite (sum_exact_all _ (no_overflow_remove before after r Hno)).
    rewrite !map_app, !exact_sum_app. simpl. ring.
Qed.

Lemma unbranded_rows_witness :
  Marca (unbranded "cuatro" 9) = NA
  /\ topBrandsByVolume (H := stable_argsort) (table_BA ++ [unbranded "cuatro" 9]) 10
     = topBrandsByVolume (H := stable_argsort) table_BA 10
  /\ count (summaryMetrics (table_BA ++ [unbranded "cuatro" 9])) = 3%nat
  /\ no_overflow (table_BA ++ [unbranded "cuatro" 9])
  /\ totalSold (summaryMetrics (table_BA ++ [unbranded "cuatro" 9])) = 10 + 9
  /\ int64_column table_big
  /\ totalSold (summaryMetrics table_big) = add64 (2 ^ 62) (2 ^ 62)
  /\ add64 (2 ^ 62) (2 ^ 62) = - 2 ^ 63.
Proof.
  split; [reflexivity|].
  assert (Hno : no_overflow (table_BA ++ [unbranded "cuatro" 9])) by table_bounds.
  assert (Hint : int64_column table_big) by table_bounds.
  destruct (unbranded_rows (H := stable_argsort) table_BA [] (unbranded "cuatro" 9)
              10 eq_refl) as [H1 [_ [H2 [_ H3]]]].
  specialize (H3 Hno).
  rewrite app_nil_r in H1, H2, H3.
  split; [exact H1|]. split; [exact H2|]. split; [exact Hno|].
  split; [exact H3|]. split; [exact Hint|].
  split; [|vm_compute; reflexivity].
  exact (proj1 (proj2 (proj2 (proj2
           (unbranded_rows (H := stable_argsort) [listing "A" "uno" fzero (2 ^ 62)] []
              (unbranded "dos" (2 ^ 62)) 10 eq_refl)))) Hint).
Defined.

(** ** Worked examples *)

Lemma filterByPriceCeiling_strict_witness :
  SFcompare (Precio (listing "B" "dos" ceiling_300 2)) ceiling_300 = Some Eq
  /\ ~ In (listing "B" "dos" ceiling_300 2) (filterByPriceCeiling table_prices ceiling_300).
Proof.
  split; [reflexivity|].
  apply (proj2 (proj2 (filterByPriceCeiling_strict table_prices ceiling_300))).
  reflexivity.
Defined.

Lemma filterByBrandSubset_member_witness :
  (forall b, In (Str b) (map Marca table_AB) -> In b [lit "A"; lit "B"])
  /\ ~ In NA (map Marca table_AB)
  /\ filterByBrandSubset table_AB [lit "A"; lit "B"] = table_AB.
Proof.
  assert (H : forall b, In (Str b) (map Marca table_AB) -> In b [lit "A"; lit "B"]).
  { intros b [[= <-]|[[= <-]|[]]]; simpl; tauto. }
  assert (Hna : ~ In NA (map Marca table_AB)).
  { intros [E|[E|[]]]; discriminate E. }
  split; [exact H|]. split; [exact Hna|].
  apply (proj2 (proj2 (proj2 (proj2
           (filterByBrandSubset_member table_AB [lit "A"; lit "B"]))) H)).
  exact Hna.
Defined.

(** C9 (as stated) fails: a row without a brand is kept by no selection.
    With every option of the brand selector chosen, the text [nan] that
    stands for the missing brand included, the table of two branded rows
    and one row without a brand comes back without that row. *)
Lemma filterByBrandSubset_unbranded :
  marcas (table_BA ++ [unbranded "cuatro" 9]) = [lit "A"; lit "B"; lit "nan"]
  /\ (forall b, In (Str b) (map Marca (table_BA ++ [unbranded "cuatro" 9])) ->
                In b (marcas (table_BA ++ [unbranded "cuatro" 9])))
  /\ filterByBrandSubset (table_BA ++ [unbranded "cuatro" 9])
                         (marcas (table_BA ++ [unbranded "cuatro" 9]))
     = table_BA
  /\ filterByBrandSubset (table_BA ++ [unbranded "cuatro" 9])
                         (marcas (table_BA ++ [unbranded "cuatro" 9]))
     <> table_BA ++ [unbranded "cuatro" 9].
Proof.
  split; [vm_compute; reflexivity|]. split; [|split].
  - intros b [[= <-]|[[= <-]|[E|[]]]]; try discriminate E; vm_compute; tauto.
  - vm_compute. reflexivity.
  - vm_compute. discriminate.
Qed.

(** The end-to-end scenario of the specification: two rows, a mean price
    of 15.0, 8 sold, 2 brands, and brand A on top. *)
Example end_to_end :
  exists df tabla,
    cargar_datos fs_example = Ok (Some df)
    /\ aplicar_limpieza df = Ok tabla
    /\ summaryMetrics (df_global tabla (lit "Ambos"))
       = {| count := 2; meanPrice := binary_normalize prec emax 15 0 false;
            totalSold := 8; distinctBrandCount := 2 |}
    /\ topBrandsByVolume (H := stable_argsort) tabla 1 = [(lit "A", 5)].
Proof.
  eexists. eexists. split; [reflexivity|].
  split; [vm_compute; reflexivity|].
  split; vm_compute; reflexivity.
Qed.

(** * Further properties of the script *)

(** ** limpiar_numero: what the cleaning does to common texts *)

Lemma to_decimal_dot : to_decimal dot = None.
Proof. vm_compute. reflexivity. Qed.

Lemma isdigit_dot : isdigit dot = false.
Proof. vm_compute. reflexivity. Qed.

Lemma decimal_value_dot (l : str) : forall acc,
  In dot l -> decimal_value acc l = None.
Proof.
  induction l as [|c l IH]; simpl; intros acc H; [tauto|].
  destruct H as [->|H].
  - now rewrite to_decimal_dot.
  - destruct (to_decimal c); [now apply IH|reflexivity].
Qed.

Lemma count_dots_In (l : str) : (1 <= count_dots l)%nat -> In dot l.
Proof.
  unfold count_dots. induction l as [|c l IH]; simpl; [lia|].
  destruct (c =? dot)%N eqn:E.
  - apply N.eqb_eq in E. now left.
  - intros H. right. now apply IH.
Qed.

Lemma split_dot_count (s : str) :
  match split_dot s with
  | (_, None) => count_dots s = O
  | (_, Some frac) => count_dots s = S (count_dots frac)
  end.
Proof.
  unfold count_dots. induction s as [|c s IH]; simpl; [reflexivity|].
  destruct (c =? dot)%N eqn:E; [reflexivity|].
  destruct (split_dot s) as [ent [frac|]]; exact IH.
Qed.

Lemma py_float_two_dots (s : str) :
  (2 <= count_dots s)%nat -> py_float s = Raise ValueError.
Proof.
  intros H. unfold py_float.
  pose proof (split_dot_count s) as Hs.
  destruct (split_dot s) as [ent [frac|]]; [|lia].
  assert (Hin : In dot (ent ++ frac)).
  { apply in_app_iff. right. apply count_dots_In. lia. }
  destruct (ent ++ frac) as [|c ds] eqn:E; [reflexivity|].
  now rewrite (decimal_value_dot _ 0 Hin).
Qed.

Lemma count_dots_keep (s : str) :
  count_dots (filter (keep true) s) = count_dots s.
Proof.
  unfold count_dots. induction s as [|c s IH]; simpl; [reflexivity|].
  destruct (c =? dot)%N eqn:E.
  - apply N.eqb_eq in E. subst c.
    replace (keep true dot) with true by reflexivity.
    simpl. now rewrite IH.
  - destruct (keep true c); simpl; [rewrite E|]; exact IH.
Qed.

(** X1: a text with two or more dots anywhere in it cleans to [0.0] in
    Float mode, whatever its digits. *)
Theorem limpiar_numero_two_dots (s : str) :
  (2 <= count_dots s)%nat -> limpiar_numero (Str s) true = Ok (PyFloat fzero).
Proof.
  intros H. rewrite limpiar_numero_unfold. unfold parse_or_default.
  rewrite py_float_two_dots; [reflexivity|].
  now rewrite count_dots_keep.
Qed.

Lemma limpiar_numero_two_dots_witness :
  (2 <= count_dots (lit "U.S. $84.99"))%nat
  /\ limpiar_numero (Str (lit "U.S. $84.99")) true = Ok (PyFloat fzero).
Proof.
  split; [vm_compute; lia|].
  apply (limpiar_numero_two_dots (lit "U.S. $84.99")). vm_compute. lia.
Defined.

Lemma decimal_value_acc (b : str) : forall acc,
  decimal_value acc b
  = option_map (fun v => acc * 10 ^ Z.of_nat (List.length b) + v) (decimal_value 0 b).
Proof.
  induction b as [|c b IH]; intros acc.
  - simpl. f_equal. lia.
  - cbn [decimal_value]. destruct (to_decimal c) as [d|]; [|reflexivity].
    rewrite (IH (10 * acc + d)), (IH (10 * 0 + d)).
    destruct (decimal_value 0 b) as [v|]; [|reflexivity].
    cbn [option_map]. f_equal.
    replace (Z.of_nat (List.length (c :: b))) with (Z.succ (Z.of_nat (List.length b)))
      by (simpl List.length; lia).
    rewrite Z.pow_succ_r by lia. ring.
Qed.

Lemma decimal_value_app (a b : str) (acc : Z) :
  decimal_value acc (a ++ b)
  = match decimal_value acc a with
    | Some v => decimal_value v b
    | None => None
    end.
Proof.
  revert acc. induction a as [|c a IH]; intros acc; [reflexivity|].
  simpl. destruct (to_decimal c); [apply IH|reflexivity].
Qed.

Lemma decimal_value_keep (a : str) (acc v : Z) (es_float : bool) :
  decimal_value acc a = Some v -> filter (keep es_float) a = a.
Proof.
  revert acc. induction a as [|c a IH]; intros acc H; [reflexivity|].
  simpl in H. destruct (to_decimal c) as [d|] eqn:Hd; [|discriminate].
  simpl. unfold keep at 1. unfold isdigit, isdecimal. rewrite Hd. simpl.
  f_equal. now apply (IH _ H).
Qed.

Lemma filter_keep_none (sep : str) :
  Forall (fun c => isdigit c = false) sep -> filter (keep false) sep = [].
Proof.
  induction 1 as [|c sep Hc _ IH]; [reflexivity|].
  simpl. unfold keep at 1. rewrite Hc, andb_false_r. exact IH.
Qed.

(** X2: in Integer mode the digits of the text are read as one numeral,
    whatever stands between them: a group separator is harmless, and a
    decimal point is dropped, so the digits after it count as well. *)
Theorem limpiar_numero_joins_digits (a sep b : str) (va vb : Z) :
  decimal_value 0 a = Some va ->
  decimal_value 0 b = Some vb ->
  Forall (fun c => isdigit c = false) sep ->
  a ++ b <> [] ->
  (List.length (a ++ b) <= int_max_str_digits)%nat ->
  limpiar_numero (Str (a ++ sep ++ b)) false
  = Ok (PyInt (va * 10 ^ Z.of_nat (List.length b) + vb)).
Proof.
  intros Ha Hb Hsep Hne Hlen. rewrite limpiar_numero_unfold.
  rewrite !filter_app, (decimal_value_keep a 0 va false Ha),
    (decimal_value_keep b 0 vb false Hb), (filter_keep_none sep Hsep).
  simpl app. unfold parse_or_default, py_int.
  destruct (a ++ b) as [|c ds] eqn:E; [congruence|].
  rewrite <- E in Hlen |- *.
  rewrite decimal_value_app, Ha, decimal_value_acc, Hb.
  cbn [option_map].
  destruct (int_max_str_digits <? List.length (a ++ b))%nat eqn:El;
    [apply Nat.ltb_lt in El; lia|reflexivity].
Qed.

Lemma limpiar_numero_joins_digits_witness :
  limpiar_numero (Str (lit "12" ++ lit "." ++ lit "50")) false = Ok (PyInt 1250)
  /\ limpiar_numero (Str (lit "1" ++ lit "," ++ lit "234")) false = Ok (PyInt 1234).
Proof.
  split.
  - apply (limpiar_numero_joins_digits (lit "12") (lit ".") (lit "50") 12 50);
      try reflexivity.
    + repeat constructor.
    + discriminate.
    + vm_compute. lia.
  - apply (limpiar_numero_joins_digits (lit "1") (lit ",") (lit "234") 1 234);
      try reflexivity.
    + repeat constructor.
    + discriminate.
    + vm_compute. lia.
Defined.

(** *** Round trip on plain numerals *)

Lemma decimal_value_uint_acc (d : Decimal.uint) : forall acc,
  decimal_value (Zpos acc) (chars_of_uint d) = Some (Zpos (Pos.of_uint_acc d acc)).
Proof.
  induction d; intros acc; [reflexivity|..];
    cbn [chars_of_uint decimal_value];
    match goal with
    | |- context [to_decimal ?c] =>
        let r := eval vm_compute in (to_decimal c) in
        change (to_decimal c) with r
    end;
    cbv iota; cbn [Pos.of_uint_acc]; rewrite <- IHd; f_equal; lia.
Qed.

Lemma decimal_value_uint (d : Decimal.uint) :
  decimal_value 0 (chars_of_uint d) = Some (Z.of_N (Pos.of_uint d)).
Proof.
  induction d; [reflexivity|..];
    cbn [chars_of_uint decimal_value];
    match goal with
    | |- context [to_decimal ?c] =>
        let r := eval vm_compute in (to_decimal c) in
        change (to_decimal c) with r
    end;
    cbv iota; cbn [Pos.of_uint]; [exact IHd|..];
    cbn [Z.mul Z.add Z.of_N]; apply decimal_value_uint_acc.
Qed.

Lemma str_of_int_value (n : N) :
  decimal_value 0 (str_of_int n) = Some (Z.of_N n).
Proof.
  unfold str_of_int. rewrite decimal_value_uint.
  change (Pos.of_uint (N.to_uint n)) with (N.of_uint (N.to_uint n)).
  now rewrite DecimalN.Unsigned.of_to.
Qed.

Lemma str_of_int_nonempty (n : N) : str_of_int n <> [].
Proof.
  unfold str_of_int. intros H.
  assert (Hn : N.to_uint n = Decimal.Nil).
  { destruct (N.to_uint n); simpl in H; congruence. }
  pose proof (DecimalN.Unsigned.of_to n) as E. rewrite Hn in E.
  simpl in E. subst n. discriminate Hn.
Qed.

(** X3: the numeral Python writes for an int that is not negative is read
    back as that int, with any text without digits before and after it,
    as long as the numeral has no more than 4300 digits. *)
Theorem limpiar_numero_round_trip (pre post : str) (n : N) :
  Forall (fun c => isdigit c = false) pre ->
  Forall (fun c => isdigit c = false) post ->
  (List.length (str_of_int n) <= int_max_str_digits)%nat ->
  limpiar_numero (Str (pre ++ str_of_int n ++ post)) false = Ok (PyInt (Z.of_N n)).
Proof.
  intros Hpre Hpost Hlen. rewrite limpiar_numero_unfold.
  rewrite !filter_app, (filter_keep_none pre Hpre), (filter_keep_none post Hpost),
    (decimal_value_keep _ 0 _ false (str_of_int_value n)), app_nil_r.
  simpl app. unfold parse_or_default, py_int.
  pose proof (str_of_int_nonempty n) as Hne.
  destruct (str_of_int n) as [|c ds] eqn:E; [congruence|].
  rewrite <- E in Hlen |- *. rewrite str_of_int_value.
  destruct (int_max_str_digits <? List.length (str_of_int n))%nat eqn:El;
    [apply Nat.ltb_lt in El; lia|reflexivity].
Qed.

Lemma limpiar_numero_round_trip_witness :
  str_of_int 134 = lit "134"
  /\ limpiar_numero (Str (lit "" ++ str_of_int 134 ++ lit " sold")) false
     = Ok (PyInt 134).
Proof.
  split; [reflexivity|].
  apply (limpiar_numero_round_trip (lit "") (lit " sold") 134).
  - constructor.
  - repeat constructor.
  - vm_compute. lia.
Defined.

(** ** cargar_datos: outcomes and the shape of the loaded table *)

(** X4: [cargar_datos] never lets a [FileNotFoundError] out; it returns a
    table only when both files were read, [None] only when a file was
    missing at its turn, and raises only what reading a file raised. *)
Theorem cargar_datos_outcomes (fs : FileSystem) :
  cargar_datos fs <> Raise FileNotFoundError
  /\ (forall df, cargar_datos fs = Ok (Some df) ->
                 readable fs mens_csv /\ readable fs womens_csv)
  /\ (cargar_datos fs = Ok None ->
      missing fs mens_csv \/ (readable fs mens_csv /\ missing fs womens_csv))
  /\ (forall e, cargar_datos fs = Raise e ->
                read_csv fs mens_csv = Raise e
                \/ (readable fs mens_csv /\ read_csv fs womens_csv = Raise e)).
Proof.
  unfold cargar_datos, missing, readable.
  destruct (read_csv fs mens_csv) as [m|em] eqn:Em; simpl.
  - destruct (read_csv fs womens_csv) as [w|ew] eqn:Ew; simpl.
    + repeat split; try discriminate; eauto.
    + destruct ew; simpl; repeat split; try discriminate;
        try (intros e [= <-]); eauto.
  - destruct em; simpl; repeat split; try discriminate;
      try (intros e [= <-]); eauto.
Qed.

Lemma cargar_datos_outcomes_witness :
  readable fs_example mens_csv /\ readable fs_example womens_csv.
Proof.
  eapply (proj1 (proj2 (cargar_datos_outcomes fs_example))).
  reflexivity.
Defined.

Lemma index_of_not_In (c : str) (cols : list str) :
  ~ In c cols -> index_of c cols = None.
Proof.
  intros H. destruct (index_of c cols) as [j|] eqn:E; [|reflexivity].
  apply index_of_Some in E. destruct E as [Hj Hn].
  exfalso. apply H. rewrite <- (Hn c). now apply nth_In.
Qed.

Lemma reindex_same (cols : list str) (r : list cell) :
  NoDup cols -> List.length r = List.length cols -> reindex cols cols r = r.
Proof.
  intros Hnd Hlen. apply (nth_ext _ _ NA NA).
  - unfold reindex. now rewrite length_map.
  - unfold reindex. rewrite length_map. intros j Hj.
    rewrite (nth_map_lt _ _ _ (lit "")) by exact Hj.
    now rewrite index_of_nth.
Qed.

Lemma filter_all_present (cols : list str) :
  filter (fun c => negb (has_label cols c)) cols = [].
Proof.
  assert (H : forall l, (forall c, In c l -> In c cols) ->
                        filter (fun c => negb (has_label cols c)) l = []).
  { induction l as [|c l IH]; intros Hl; [reflexivity|]. simpl.
    assert (Hc : has_label cols c = true) by (apply has_label_In, Hl; now left).
    rewrite Hc. simpl. apply IH. intros c' Hc'. apply Hl. now right. }
  now apply H.
Qed.

Lemma map_id_in {A} (f : A -> A) (l : list A) :
  (forall x, In x l -> f x = x) -> map f l = l.
Proof.
  intros H. rewrite <- (map_id l) at 2. now apply map_ext_in.
Qed.

(** X5: when the two files have the same columns, none of them called
    [Genero], the loaded table has those columns under their new labels
    followed by [Genero], and its rows are the men's rows, each with
    [Hombre] appended, followed by the women's rows, each with [Mujer]
    appended. *)
Theorem cargar_datos_same_columns (fs : FileSystem) (m w : DataFrame) :
  read_csv fs mens_csv = Ok m ->
  read_csv fs womens_csv = Ok w ->
  well_formed m = true ->
  well_formed w = true ->
  columns w = columns m ->
  ~ In Genero_label (columns m) ->
  cargar_datos fs
  = Ok (Some {| columns := map (rename_label renombres) (columns m) ++ [Genero_label];
                rows := map (fun r => r ++ [Hombre]) (rows m)
                        ++ map (fun r => r ++ [Mujer]) (rows w) |}).
Proof.
  intros Hm Hw Wm Ww Hcols Hg.
  unfold cargar_datos. rewrite Hm. simpl. rewrite Hw. simpl.
  do 2 f_equal. unfold assign. rewrite Hcols.
  rewrite (index_of_not_In _ _ Hg).
  unfold concat2, rename. simpl.
  rewrite filter_all_present, app_nil_r, map_app. simpl.
  f_equal. rewrite !map_map.
  assert (Hnd : NoDup (columns m ++ [Genero_label])).
  { apply NoDup_app; [now apply well_formed_NoDup|repeat constructor; simpl; tauto|].
    intros x Hx [<-|[]]. contradiction. }
  assert (Hrow : forall df tag, well_formed df = true -> columns df = columns m ->
            map (fun r => reindex (columns m ++ [Genero_label])
                            (columns m ++ [Genero_label]) (r ++ [tag])) (rows df)
            = map (fun r => r ++ [tag]) (rows df)).
  { intros df tag Wdf Hdf. apply map_ext_in. intros r Hr.
    apply reindex_same; [exact Hnd|].
    rewrite !length_app. simpl. f_equal.
    unfold well_formed in Wdf. apply andb_true_iff in Wdf.
    destruct Wdf as [Wdf _]. rewrite forallb_forall in Wdf.
    rewrite <- Hdf. now apply Nat.eqb_eq, Wdf. }
  f_equal; [now apply Hrow|now apply Hrow].
Qed.

Lemma cargar_datos_same_columns_witness :
  cargar_datos fs_example
  = Ok (Some {| columns := [lit "Marca"; lit "Titulo"; lit "Precio_Texto";
                            lit "Disponibles"; lit "Vendidos_Texto";
                            lit "Ubicacion"; lit "Genero"];
                rows := [[Str (lit "A"); Str (lit "Eau A"); Str (lit "$10"); NA;
                          Str (lit "5 sold"); Str (lit "Miami"); Hombre];
                         [Str (lit "B"); Str (lit "Eau B"); Str (lit "$20"); NA;
                          Str (lit "3 sold"); NA; Mujer]] |}).
Proof.
  apply (cargar_datos_same_columns fs_example mens_example womens_example);
    try reflexivity.
  intros H. repeat (destruct H as [H|H]; [discriminate H|]). exact H.
Defined.

Lemma assign_columns_In (name : str) (v : cell) (df : DataFrame) (c : str) :
  In c (columns (assign name v df)) -> In c (columns df) \/ c = name.
Proof.
  unfold assign. destruct (index_of name (columns df)); simpl; [now left|].
  intros H. apply in_app_iff in H. destruct H as [H|[<-|[]]]; auto.
Qed.

Lemma loaded_fill (fs : FileSystem) (m w : DataFrame) (c : str) :
  read_csv fs mens_csv = Ok m ->
  read_csv fs womens_csv = Ok w ->
  c <> Genero_label ->
  exists df,
    cargar_datos fs = Ok (Some df)
    /\ (forall k, index_of c (columns m) = Some k -> ~ In c (columns w) ->
          nth k (columns df) [] = rename_label renombres c
          /\ forall i, (i < List.length (rows w))%nat ->
                       celda df (List.length (rows m) + i) k = NA)
    /\ (In c (columns w) -> ~ In c (columns m) ->
          exists j, nth j (columns df) [] = rename_label renombres c
                    /\ forall i, (i < List.length (rows m))%nat -> celda df i j = NA).
Proof.
  intros Hm Hw Hc.
  set (dfm := assign Genero_label Hombre m).
  set (dfw := assign Genero_label Mujer w).
  exists (rename renombres (concat2 dfm dfw)).
  assert (Lm : List.length (rows dfm) = List.length (rows m)) by apply assign_length.
  assert (Lw : List.length (rows dfw) = List.length (rows w)) by apply assign_length.
  split; [|split].
  - unfold cargar_datos. rewrite Hm. simpl. rewrite Hw. reflexivity.
  - intros k Hk Hnot.
    assert (Hk' : index_of c (columns dfm) = Some k).
    { destruct (assign_columns_prefix Genero_label Hombre m) as [x Hx].
      subst dfm. rewrite Hx. now apply index_of_app_l. }
    assert (Hj : index_of c (columns (concat2 dfm dfw)) = Some k).
    { unfold concat2. simpl. now apply index_of_app_l. }
    split; [now apply rename_column|].
    intros i Hi. unfold celda, rename, concat2. simpl.
    rewrite app_nth2; rewrite length_map; [|lia].
    replace (List.length (rows dfm) + i - List.length (rows dfm))%nat with i by lia.
    rewrite <- Lm.
    replace (List.length (rows dfm) + i - List.length (rows dfm))%nat with i by lia.
    rewrite (nth_map_lt _ _ _ []) by lia.
    rewrite (reindex_lookup _ _ _ c k Hj).
    rewrite index_of_not_In; [reflexivity|].
    intros Hin. apply assign_columns_In in Hin. tauto.
  - intros Hin Hnot.
    destruct (concat2_has_column dfm dfw c) as [j Hj].
    { right. destruct (assign_columns_prefix Genero_label Mujer w) as [x Hx].
      subst dfw. rewrite Hx. apply in_app_iff. now left. }
    exists j. split; [now apply rename_column|].
    intros i Hi. unfold celda, rename, concat2. simpl.
    rewrite app_nth1 by (rewrite length_map; lia).
    rewrite (nth_map_lt _ _ _ []) by lia.
    rewrite (reindex_lookup _ _ _ c j Hj).
    rewrite index_of_not_In; [reflexivity|].
    intros Hin'. apply assign_columns_In in Hin'. tauto.
Qed.

(** X6: a column that only one of the two files has is still a column of
    the loaded table, and the rows that come from the other file hold a
    missing value in it. *)
Theorem cargar_datos_lacking_column (fs : FileSystem) (m w : DataFrame) (c : str) :
  read_csv fs mens_csv = Ok m ->
  read_csv fs womens_csv = Ok w ->
  c <> Genero_label ->
  exists df,
    cargar_datos fs = Ok (Some df)
    /\ (forall k, index_of c (columns m) = Some k -> ~ In c (columns w) ->
          nth k (columns df) [] = rename_label renombres c
          /\ forall i, (i < List.length (rows w))%nat ->
                       celda df (List.length (rows m) + i) k = NA)
    /\ (In c (columns w) -> ~ In c (columns m) ->
          exists j, nth j (columns df) [] = rename_label renombres c
                    /\ forall i, (i < List.length (rows m))%nat -> celda df i j = NA).
Proof. exact (loaded_fill fs m w c). Qed.

Lemma cargar_datos_lacking_column_witness :
  exists df,
    cargar_datos fs_no_price = Ok (Some df)
    /\ nth 2 (columns df) [] = lit "Precio_Texto"
    /\ celda df 1 2 = NA.
Proof.
  destruct (cargar_datos_lacking_column fs_no_price mens_example womens_no_price
              (lit "price") eq_refl eq_refl) as [df [H [H1 _]]].
  { discriminate. }
  exists df. split; [exact H|].
  destruct (H1 2%nat eq_refl) as [Hl Hc].
  { intros [E|[E|[]]]; discriminate E. }
  split; [exact Hl|]. apply (Hc 0%nat). simpl. lia.
Defined.

(** ** The cleaned columns *)

Lemma limpiar_numero_ok (texto : cell) (es_float : bool) :
  exists v, limpiar_numero texto es_float = Ok v /\ clean_value es_float v.
Proof.
  destruct texto as [|s].
  - exists (default_value es_float). destruct es_float; repeat split.
  - exists (parse_or_default es_float (filter (keep es_float) s)).
    split; [apply limpiar_numero_unfold|apply parse_or_default_ok].
Qed.

Lemma apply_limpiar_numero_ok {A} (es_float : bool) (f : A -> cell) (l : list A) :
  exists vs,
    apply_limpiar_numero es_float (map f l) = Ok vs
    /\ Forall2 (fun x v => limpiar_numero (f x) es_float = Ok v) l vs
    /\ Forall (clean_value es_float) vs.
Proof.
  unfold apply_limpiar_numero.
  induction l as [|x l [vs [E [H2 H]]]]; simpl.
  - exists []. repeat constructor.
  - destruct (limpiar_numero_ok (f x) es_float) as [v [Ev Hv]].
    exists (v :: vs). rewrite Ev. simpl. rewrite E. simpl.
    repeat split; constructor; assumption.
Qed.

Lemma column_KeyError (df : DataFrame) (label : str) :
  ~ In label (columns df) -> column df label = Raise KeyError.
Proof. intros H. unfold column. now rewrite index_of_not_In. Qed.

Lemma column_Ok (df : DataFrame) (label : str) :
  In label (columns df) ->
  exists j, index_of label (columns df) = Some j
            /\ column df label = Ok (map (fun r => nth j r NA) (rows df)).
Proof.
  intros H. destruct (index_of_In _ _ H) as [j Hj].
  exists j. split; [exact Hj|]. unfold column. now rewrite Hj.
Qed.

Lemma aplicar_cases (df : DataFrame) :
  distinct (columns df) = true ->
  (~ In (lit "Precio_Texto") (columns df) \/ ~ In (lit "Vendidos_Texto") (columns df) ->
   aplicar df = Raise KeyError)
  /\ (forall e, aplicar df = Raise e -> e = KeyError)
  /\ (forall jp jv,
        index_of (lit "Precio_Texto") (columns df) = Some jp ->
        index_of (lit "Vendidos_Texto") (columns df) = Some jv ->
        exists precio vendidos,
          aplicar df = Ok (precio, vendidos)
          /\ Forall2 (fun r v => limpiar_numero (nth jp r NA) true = Ok v)
                     (rows df) precio
          /\ Forall2 (fun r v => limpiar_numero (nth jv r NA) false = Ok v)
                     (rows df) vendidos
          /\ Forall (clean_value true) precio
          /\ Forall (clean_value false) vendidos).
Proof.
  intros _. unfold aplicar, Precio_column, Vendidos_column, column.
  destruct (index_of (lit "Precio_Texto") (columns df)) as [jp|] eqn:Ep.
  - destruct (apply_limpiar_numero_ok true (fun r => nth jp r NA) (rows df))
      as [ps [Eps [H2p Hp]]].
    simpl. rewrite Eps. simpl.
    destruct (index_of (lit "Vendidos_Texto") (columns df)) as [jv|] eqn:Ev.
    + destruct (apply_limpiar_numero_ok false (fun r => nth jv r NA) (rows df))
        as [vs [Evs [H2v Hv]]].
      simpl. rewrite Evs. simpl.
      split; [|split].
      * intros [H|H]; exfalso; apply H.
        -- apply index_of_Some in Ep. destruct Ep as [Hj Hn].
           rewrite <- (Hn (lit "")). now apply nth_In.
        -- apply index_of_Some in Ev. destruct Ev as [Hj Hn].
           rewrite <- (Hn (lit "")). now apply nth_In.
      * discriminate.
      * intros jp' jv' [= <-] [= <-]. exists ps, vs.
        repeat split; assumption.
    + simpl. split; [reflexivity|]. split; [now intros e [= <-]|discriminate].
  - simpl. split; [reflexivity|]. split; [now intros e [= <-]|discriminate].
Qed.

(** X7: on a table whose labels are distinct, lines 47-48 end in
    [KeyError] when the table lacks the [Precio_Texto] or the
    [Vendidos_Texto] column, and in no other error; with both columns
    there, they give one float per row and one int per row, none of them
    negative, each the cleaning of the text of its own row. *)
Theorem aplicar_columns (df : DataFrame) :
  distinct (columns df) = true ->
  (~ In (lit "Precio_Texto") (columns df) \/ ~ In (lit "Vendidos_Texto") (columns df) ->
   aplicar df = Raise KeyError)
  /\ (forall e, aplicar df = Raise e -> e = KeyError)
  /\ (forall jp jv,
        index_of (lit "Precio_Texto") (columns df) = Some jp ->
        index_of (lit "Vendidos_Texto") (columns df) = Some jv ->
        exists precio vendidos,
          aplicar df = Ok (precio, vendidos)
          /\ Forall2 (fun r v => limpiar_numero (nth jp r NA) true = Ok v)
                     (rows df) precio
          /\ Forall2 (fun r v => limpiar_numero (nth jv r NA) false = Ok v)
                     (rows df) vendidos
          /\ Forall (clean_value true) precio
          /\ Forall (clean_value false) vendidos).
Proof. exact (aplicar_cases df). Qed.

Lemma aplicar_columns_witness :
  aplicar {| columns := [lit "Marca"; lit "Vendidos_Texto"];
             rows := [[Str (lit "A"); Str (lit "5 sold")]] |}
  = Raise KeyError.
Proof.
  refine (proj1 (aplicar_columns _ _) _); [reflexivity|]. left.
  intros [E|[E|[]]]; discriminate E.
Defined.

Lemma Forall2_length_eq {A B} (R : A -> B -> Prop) (l : list A) (l' : list B) :
  Forall2 R l l' -> List.length l = List.length l'.
Proof. induction 1; simpl; congruence. Qed.


(** X8: once both files are read, and one of them at least has a [price]
    column and one a [sold] column, lines 40-48 go through whenever the
    labels of the loaded table are distinct: the script is running with
    that table, and the two cleaned columns have one entry for each row of
    the two files. *)
Theorem arranque_aplicar (fs : FileSystem) (m w : DataFrame) :
  read_csv fs mens_csv = Ok m ->
  read_csv fs womens_csv = Ok w ->
  In (lit "price") (columns m) \/ In (lit "price") (columns w) ->
  In (lit "sold") (columns m) \/ In (lit "sold") (columns w) ->
  exists df,
    arranque fs = Running df
    /\ (distinct (columns df) = true ->
        exists precio vendidos,
          aplicar df = Ok (precio, vendidos)
          /\ List.length precio = (List.length (rows m) + List.length (rows w))%nat
          /\ List.length vendidos = (List.length (rows m) + List.length (rows w))%nat).
Proof.
  intros Hm Hw Hp Hs.
  set (dfm := assign Genero_label Hombre m).
  set (dfw := assign Genero_label Mujer w).
  set (df := rename renombres (concat2 dfm dfw)).
  assert (Hin : forall c, In c (columns m) \/ In c (columns w) ->
                          In (rename_label renombres c) (columns df)).
  { intros c Hc. unfold df, rename. cbn [columns]. apply in_map.
    destruct (concat2_has_column dfm dfw c) as [j Hj].
    - destruct Hc as [Hc|Hc]; [left|right].
      + destruct (assign_columns_prefix Genero_label Hombre m) as [x Hx].
        subst dfm. rewrite Hx. apply in_app_iff. now left.
      + destruct (assign_columns_prefix Genero_label Mujer w) as [x Hx].
        subst dfw. rewrite Hx. apply in_app_iff. now left.
    - apply index_of_Some in Hj. destruct Hj as [Hj Hn].
      rewrite <- (Hn (lit "")). now apply nth_In. }
  destruct (index_of_In _ _ (Hin _ Hp)) as [jp Hjp].
  destruct (index_of_In _ _ (Hin _ Hs)) as [jv Hjv].
  exists df. split.
  { unfold arranque, cargar_datos. rewrite Hm. simpl. rewrite Hw. reflexivity. }
  intros Hd.
  destruct (proj2 (proj2 (aplicar_cases df Hd)) jp jv Hjp Hjv)
    as [ps [vs [E [H2p [H2v _]]]]].
  exists ps, vs.
  assert (Hlen : List.length (rows df)
                 = (List.length (rows m) + List.length (rows w))%nat).
  { unfold df. simpl. rewrite length_app, !length_map.
    unfold dfm, dfw. now rewrite !assign_length. }
  split; [exact E|split].
  - rewrite <- (Forall2_length_eq _ _ _ H2p). exact Hlen.
  - rewrite <- (Forall2_length_eq _ _ _ H2v). exact Hlen.
Qed.

Lemma arranque_aplicar_witness :
  exists df precio vendidos,
    arranque fs_no_price = Running df
    /\ distinct (columns df) = true
    /\ aplicar df = Ok (precio, vendidos)
    /\ List.length precio = 2%nat
    /\ List.length vendidos = 2%nat.
Proof.
  destruct (arranque_aplicar fs_no_price mens_example womens_no_price
              eq_refl eq_refl) as [df [H1 H2]].
  - left. simpl. tauto.
  - left. simpl. tauto.
  - injection H1 as <-.
    destruct (H2 eq_refl) as [ps [vs H]].
    eexists. exists ps, vs. split; [reflexivity|]. split; [reflexivity|exact H].
Defined.



(** ** The normalised table *)

Lemma leer_same_cell (cols : list str) (r : list cell) (label : string) :
  same_cell cols r label (leer cols r label).
Proof. unfold same_cell, leer. now intros j ->. Qed.

Lemma filas_ok (cols : list str) (jp jv : nat) (rs : list (list cell)) :
  index_of (lit "Precio_Texto") cols = Some jp ->
  index_of (lit "Vendidos_Texto") cols = Some jv ->
  forall precio vendidos,
    Forall2 (fun r v => limpiar_numero (nth jp r NA) true = Ok v) rs precio ->
    Forall2 (fun r v => limpiar_numero (nth jv r NA) false = Ok v) rs vendidos ->
    Forall (clean_value true) precio ->
    Forall (clean_value false) vendidos ->
    exists tabla,
      filas cols rs precio vendidos = Ok tabla
      /\ precio = map (fun row => PyFloat (Precio row)) tabla
      /\ vendidos = map (fun row => PyInt (Vendidos row)) tabla
      /\ Forall2 (cleaned_from cols jp jv) rs tabla.
Proof.
  intros Hjp Hjv.
  induction rs as [|r rs IH]; intros precio vendidos H2p H2v Hp Hv.
  - inversion H2p; subst. inversion H2v; subst.
    exists []. repeat split. constructor.
  - inversion H2p as [|? p ? ps Ep H2p']; subst.
    inversion H2v as [|? v ? vs Ev H2v']; subst.
    inversion Hp as [|? ? [Tp Np] Hp']; subst.
    inversion Hv as [|? ? [Tv Nv] Hv']; subst.
    destruct (IH ps vs H2p' H2v' Hp' Hv') as [tabla [E [Eps [Evs HF]]]].
    destruct p as [|p]; [discriminate Tp|].
    destruct v as [v|]; [|discriminate Tv].
    eexists. cbn [filas fila bind]. rewrite E. cbn [bind].
    split; [reflexivity|].
    split; [simpl; now rewrite <- Eps|].
    split; [simpl; now rewrite <- Evs|].
    constructor; [|exact HF].
    unfold cleaned_from. cbn [Precio_Texto Vendidos_Texto Precio Vendidos
                             Marca Titulo Disponibles Ubicacion Genero].
    unfold leer at 1 2. rewrite Hjp, Hjv.
    repeat split; try assumption; try apply leer_same_cell.
    now apply Z.leb_le.
Qed.

(** X10: on a frame whose labels are distinct, the normalised table is
    there exactly when the frame has the columns [Precio_Texto] and
    [Vendidos_Texto], whatever other columns it has; it has one row for
    each row of the frame, in order; each row keeps the cells of its frame
    row, its price and its sold count are the cleaning of that frame row's
    own texts, neither is negative, and the two are what lines 47-48 put
    in the columns [Precio] and [Vendidos]. *)
Theorem aplicar_limpieza_rows (df : DataFrame) :
  distinct (columns df) = true ->
  (~ In (lit "Precio_Texto") (columns df) \/ ~ In (lit "Vendidos_Texto") (columns df) ->
   aplicar_limpieza df = Raise KeyError)
  /\ (forall jp jv,
        index_of (lit "Precio_Texto") (columns df) = Some jp ->
        index_of (lit "Vendidos_Texto") (columns df) = Some jv ->
        exists tabla,
          aplicar_limpieza df = Ok tabla
          /\ aplicar df = Ok (map (fun row => PyFloat (Precio row)) tabla,
                              map (fun row => PyInt (Vendidos row)) tabla)
          /\ List.length tabla = List.length (rows df)
          /\ Forall2 (cleaned_from (columns df) jp jv) (rows df) tabla).
Proof.
  intros Hd. destruct (aplicar_cases df Hd) as [Hk [_ Hok]]. split.
  - intros H. unfold aplicar_limpieza. now rewrite (Hk H).
  - intros jp jv Hjp Hjv.
    destruct (Hok jp jv Hjp Hjv) as [ps [vs [E [H2p [H2v [Hp Hv]]]]]].
    destruct (filas_ok (columns df) jp jv (rows df) Hjp Hjv ps vs H2p H2v Hp Hv)
      as [tabla [Et [Eps [Evs HF]]]].
    exists tabla. unfold aplicar_limpieza. rewrite E. cbn [bind fst snd].
    split; [exact Et|]. split; [now rewrite <- Eps, <- Evs|].
    split; [symmetry; exact (Forall2_length_eq _ _ _ HF)|exact HF].
Qed.

Lemma aplicar_limpieza_rows_witness :
  distinct (columns short_frame) = true
  /\ exists tabla,
       aplicar_limpieza short_frame = Ok tabla
       /\ List.length tabla = 2%nat
       /\ Forall2 (cleaned_from (columns short_frame) 1 2) (rows short_frame) tabla.
Proof.
  split; [reflexivity|].
  destruct (proj2 (aplicar_limpieza_rows short_frame eq_refl) 1%nat 2%nat
              eq_refl eq_refl) as [tabla [E [_ [Hl HF]]]].
  exists tabla. split; [exact E|]. split; [exact Hl|exact HF].
Defined.

(** ** The gender filter and the metric cards *)

Lemma filter_split_perm {A} (f : A -> bool) (l : list A) :
  Permutation (filter f l ++ filter (fun x => negb (f x)) l) l.
Proof.
  induction l as [|x l IH]; simpl; [constructor|].
  destruct (f x); simpl.
  - now constructor.
  - rewrite <- Permutation_middle. now constructor.
Qed.

Lemma is_Mujer_not_Hombre (r : Row) :
  is_Hombre r || is_Mujer r = true -> is_Mujer r = negb (is_Hombre r).
Proof.
  unfold is_Hombre, is_Mujer. destruct (Genero r) as [|g]; simpl; [discriminate|].
  destruct (str_eqb g (lit "Hombre")) eqn:E; simpl; [|tauto].
  apply str_eqb_eq in E. subst g. reflexivity.
Qed.

Lemma df_global_Hombre (df : list Row) :
  df_global df (lit "Hombre") = filter is_Hombre df.
Proof. unfold df_global. simpl. apply boolean_index_filter. Qed.

Lemma df_global_Mujer (df : list Row) :
  df_global df (lit "Mujer") = filter is_Mujer df.
Proof. unfold df_global. simpl. apply boolean_index_filter. Qed.

(** X11: on a table whose rows are all tagged [Hombre] or [Mujer], the two
    gender selections share out the rows of the selection [Ambos]: each
    row is in exactly one of them, so the row counts of the two add up to
    that of [Ambos], and so do the totals sold, in the 64-bit arithmetic
    of the column, which is plain arithmetic when no count of the table is
    negative and all of them together stay below 2^63. *)
Theorem df_global_split (df : list Row) :
  tagged df = true ->
  Permutation (df_global df (lit "Hombre") ++ df_global df (lit "Mujer"))
              (df_global df (lit "Ambos"))
  /\ count (summaryMetrics (df_global df (lit "Ambos")))
     = (count (summaryMetrics (df_global df (lit "Hombre")))
        + count (summaryMetrics (df_global df (lit "Mujer"))))%nat
  /\ (int64_column df ->
      totalSold (summaryMetrics (df_global df (lit "Ambos")))
      = add64 (totalSold (summaryMetrics (df_global df (lit "Hombre"))))
              (totalSold (summaryMetrics (df_global df (lit "Mujer")))))
  /\ (no_overflow df ->
      totalSold (summaryMetrics (df_global df (lit "Ambos")))
      = totalSold (summaryMetrics (df_global df (lit "Hombre")))
        + totalSold (summaryMetrics (df_global df (lit "Mujer")))).
Proof.
  intros Ht. rewrite df_global_Hombre, df_global_Mujer.
  change (df_global df (lit "Ambos")) with df.
  assert (E : filter is_Mujer df = filter (fun r => negb (is_Hombre r)) df).
  { apply filter_ext_in. intros r Hr. apply is_Mujer_not_Hombre.
    unfold tagged in Ht. rewrite forallb_forall in Ht. now apply Ht. }
  rewrite E.
  pose proof (filter_split_perm is_Hombre df) as Hp.
  split; [exact Hp|]. split; [|split]; simpl.
  - rewrite <- (Permutation_length Hp). apply length_app.
  - intros _. rewrite <- (sum_perm _ _ (Permutation_map Vendidos Hp)).
    now rewrite map_app, sum_app64.
  - intros Hno.
    rewrite (sum_exact_all df Hno), !(sum_exact _ df Hno).
    rewrite <- (exact_sum_perm _ _ (Permutation_map Vendidos Hp)).
    now rewrite map_app, exact_sum_app.
Qed.

Lemma df_global_split_witness :
  tagged table_HMH = true
  /\ no_overflow table_HMH
  /\ df_global table_HMH (lit "Hombre")
     = [listing "A" "uno" fzero 5; listing "A" "tres" fzero 4]
  /\ df_global table_HMH (lit "Mujer") = [listing_mujer "B" "dos" fzero 3]
  /\ count (summaryMetrics (df_global table_HMH (lit "Ambos"))) = (2 + 1)%nat
  /\ totalSold (summaryMetrics (df_global table_HMH (lit "Ambos"))) = 9 + 3
  /\ int64_column table_HMH
  /\ totalSold (summaryMetrics (df_global table_HMH (lit "Ambos"))) = add64 9 3.
Proof.
  assert (Hno : no_overflow table_HMH) by table_bounds.
  assert (Hint : int64_column table_HMH) by table_bounds.
  destruct (df_global_split table_HMH eq_refl) as [_ [Hc [H64 Hs]]].
  split; [reflexivity|]. split; [exact Hno|].
  split; [reflexivity|]. split; [reflexivity|].
  split; [exact Hc|]. split; [exact (Hs Hno)|].
  split; [exact Hint|exact (H64 Hint)].
Defined.

Lemma In_dropna (k : str) (col : list cell) : In k (dropna col) <-> In (Str k) col.
Proof.
  unfold dropna. rewrite in_flat_map. split.
  - intros [c [Hc Hk]]. destruct c as [|s]; [destruct Hk|].
    destruct Hk as [<-|[]]. exact Hc.
  - intros H. exists (Str k). split; [exact H|now left].
Qed.

Lemma dropna_length (col : list cell) : (List.length (dropna col) <= List.length col)%nat.
Proof.
  induction col as [|c col IH]; simpl; [lia|].
  destruct c; simpl; lia.
Qed.

Lemma groupby_sum_keys (df : list Row) (k : str) :
  In k (map fst (groupby_sum df)) <-> In k (dropna (map Marca df)).
Proof.
  rewrite In_dropna, in_map_iff. destruct (groupby_sum_groups df) as [_ Hg]. split.
  - intros [[k' v] [Hk Hin]]. simpl in Hk. subst k'. now apply Hg in Hin.
  - intros H. exists (k, total_of k df). split; [reflexivity|].
    apply Hg. now split.
Qed.

Lemma groupby_sum_length (df : list Row) :
  List.length (groupby_sum df) = nunique (map Marca df).
Proof.
  unfold nunique. rewrite <- (length_map fst).
  apply Permutation_length, NoDup_Permutation.
  - apply groupby_sum_groups.
  - apply NoDup_nodup.
  - intros k. rewrite nodup_In. apply groupby_sum_keys.
Qed.

(** X12: the number of distinct brands on the metric card is the number of
    groups of the brand ranking, it is at most the number of rows, and the
    ranking shows that many brands or [limit] of them, whichever is less. *)
Theorem distinctBrandCount_groups `{ArgSort} (df : list Row) (limit : nat) :
  distinctBrandCount (summaryMetrics df) = List.length (groupby_sum df)
  /\ (distinctBrandCount (summaryMetrics df) <= count (summaryMetrics df))%nat
  /\ List.length (topBrandsByVolume df limit)
     = Nat.min limit (distinctBrandCount (summaryMetrics df)).
Proof.
  simpl. split; [now rewrite groupby_sum_length|]. split.
  - unfold nunique.
    pose proof (NoDup_incl_length (NoDup_nodup str_eq_dec (dropna (map Marca df)))
                  (fun k Hk => proj1 (nodup_In str_eq_dec _ k) Hk)) as H1.
    pose proof (dropna_length (map Marca df)) as H2.
    rewrite length_map in H2. lia.
  - unfold topBrandsByVolume, head. rewrite length_firstn.
    rewrite (Permutation_length (sort_values_desc_perm snd (groupby_sum df))).
    now rewrite groupby_sum_length.
Qed.

Lemma distinctBrandCount_groups_witness :
  List.length (topBrandsByVolume (H := stable_argsort) table_AB 10) = 2%nat.
Proof.
  exact (proj2 (proj2 (distinctBrandCount_groups (H := stable_argsort) table_AB 10))).
Defined.

Lemma sum_acumular (k : str) (v : Z) (g : list (str * Z)) :
  sum (map snd (acumular k v g)) = add64 (sum (map snd g)) v.
Proof.
  unfold add64. rewrite !sum_wrap, int64_wrap_add_l.
  induction g as [|[k' v'] g IH]; cbn [acumular map snd].
  - rewrite !exact_sum_cons. wrap_eq.
  - destruct (str_compare k k'); cbn [map snd]; rewrite !exact_sum_cons.
    + wrap_eq.
    + wrap_eq.
    + rewrite <- (int64_wrap_add_r v' (exact_sum (map snd (acumular k v g)))), IH.
      wrap_eq.
Qed.

Lemma sum_fold_acumular (df : list Row) : forall g,
  sum (map snd (fold_left acumular_fila df g))
  = add64 (sum (map snd g))
          (sum (map Vendidos (filter (fun r => negb (isna (Marca r))) df))).
Proof.
  induction df as [|r df IH]; cbn [fold_left filter map]; intros g.
  - rewrite !sum_wrap. wrap_eq.
  - rewrite IH. unfold acumular_fila. destruct (Marca r); cbn [isna negb map].
    + reflexivity.
    + rewrite sum_acumular, !sum_wrap, exact_sum_cons. wrap_eq.
Qed.

(** The groups of a table without overflow hold counts that are not
    negative. *)
Lemma groupby_sum_nonneg (df : list Row) :
  no_overflow df -> Forall (fun x => 0 <= x) (map snd (groupby_sum df)).
Proof.
  intros Hno. apply Forall_forall. intros v Hv.
  apply in_map_iff in Hv. destruct Hv as [[k v'] [<- Hin]]. simpl.
  apply groupby_sum_groups in Hin. destruct Hin as [_ ->].
  unfold total_of. rewrite (sum_exact _ df Hno).
  apply exact_sum_filter, Hno.
Qed.

Lemma exact_sum_acumular (k : str) (v : Z) (g : list (str * Z)) :
  Forall (fun x => 0 <= x) (map snd g) -> 0 <= v ->
  exact_sum (map snd g) + v < 2 ^ 63 ->
  exact_sum (map snd (acumular k v g)) = exact_sum (map snd g) + v
  /\ Forall (fun x => 0 <= x) (map snd (acumular k v g)).
Proof.
  induction g as [|[k' v'] g IH]; simpl; intros Hg Hv Hlt.
  - unfold add64. rewrite int64_wrap_small by (simpl; lia).
    split; [simpl; lia|repeat constructor; simpl; lia].
  - apply Forall_cons_iff in Hg. destruct Hg as [Hv' Hg].
    pose proof (exact_sum_nonneg _ Hg) as Hs.
    destruct (str_compare k k'); simpl.
    + unfold add64. rewrite int64_wrap_small by lia.
      split; [lia|constructor; [lia|exact Hg]].
    + unfold add64. rewrite int64_wrap_small by (simpl; lia).
      split; [simpl; lia|constructor; [simpl; lia|now constructor]].
    + destruct (IH Hg Hv) as [E F]; [lia|].
      split; [lia|now constructor].
Qed.

Lemma exact_sum_fold_acumular (df : list Row) : forall g,
  Forall (fun x => 0 <= x) (map snd g) ->
  Forall (fun r => 0 <= Vendidos r) df ->
  exact_sum (map snd g) + exact_sum (map Vendidos df) < 2 ^ 63 ->
  exact_sum (map snd (fold_left acumular_fila df g))
  = exact_sum (map snd g)
    + exact_sum (map Vendidos (filter (fun r => negb (isna (Marca r))) df)).
Proof.
  induction df as [|r df IH]; simpl; intros g Hg Hdf Hlt; [lia|].
  apply Forall_cons_iff in Hdf. destruct Hdf as [Hr Hdf].
  pose proof (exact_sum_nonneg _ (proj2 (Forall_map _ _ _) Hdf)) as Hs.
  unfold acumular_fila. destruct (Marca r); simpl.
  - apply IH; [exact Hg|exact Hdf|lia].
  - destruct (exact_sum_acumular s (Vendidos r) g Hg Hr) as [E F]; [lia|].
    rewrite IH; [|exact F|exact Hdf|lia]. lia.
Qed.

(** X13: when no count of the table is negative and all of them together
    stay below 2^63, the total sold of the metric card is the sum of the
    totals of all brand groups plus what the rows without a brand sold, in
    plain arithmetic; on every int64 column the same holds of the 64-bit
    sums. A ranking long enough to hold every group accounts for all of
    the groups' part. *)
Theorem totalSold_groups `{ArgSort} (df : list Row) (limit : nat) :
  (int64_column df ->
   totalSold (summaryMetrics df)
   = add64 (sum (map snd (groupby_sum df)))
           (sum (map Vendidos (filter (fun r => isna (Marca r)) df))))
  /\ (no_overflow df ->
      totalSold (summaryMetrics df)
      = exact_sum (map snd (groupby_sum df))
        + exact_sum (map Vendidos (filter (fun r => isna (Marca r)) df)))
  /\ ((distinctBrandCount (summaryMetrics df) <= limit)%nat ->
      exact_sum (map snd (topBrandsByVolume df limit))
      = exact_sum (map snd (groupby_sum df))).
Proof.
  pose proof (filter_split_perm (fun r => negb (isna (Marca r))) df) as Hp.
  rewrite (filter_ext (fun r => negb (negb (isna (Marca r))))
                      (fun r => isna (Marca r))) in Hp
    by (intros r; apply negb_involutive).
  split; [|split].
  - intros _. simpl. unfold groupby_sum. rewrite sum_fold_acumular.
    change (sum (map snd [])) with 0.
    rewrite <- (sum_perm _ _ (Permutation_map Vendidos Hp)).
    rewrite map_app, sum_app64. wrap_eq.
  - intros Hno. simpl. rewrite (sum_exact_all df Hno).
    unfold groupby_sum. rewrite exact_sum_fold_acumular;
      [|constructor|apply Hno|simpl; apply Hno].
    rewrite <- (exact_sum_perm _ _ (Permutation_map Vendidos Hp)).
    rewrite map_app, exact_sum_app. simpl. lia.
  - simpl. rewrite <- groupby_sum_length. intros Hl.
    unfold topBrandsByVolume, head.
    rewrite firstn_all2
      by now rewrite (Permutation_length (sort_values_desc_perm snd _)).
    apply exact_sum_perm, Permutation_map, sort_values_desc_perm.
Qed.

Lemma totalSold_groups_witness :
  no_overflow (table_BA ++ [unbranded "cuatro" 9])
  /\ totalSold (summaryMetrics (table_BA ++ [unbranded "cuatro" 9])) = 10 + 9
  /\ exact_sum (map snd (topBrandsByVolume (H := stable_argsort)
                           (table_BA ++ [unbranded "cuatro" 9]) 10)) = 10
  /\ int64_column table_big
  /\ totalSold (summaryMetrics table_big) = add64 (2 ^ 62) (2 ^ 62).
Proof.
  assert (Hno : no_overflow (table_BA ++ [unbranded "cuatro" 9])) by table_bounds.
  assert (Hint : int64_column table_big) by table_bounds.
  destruct (totalSold_groups (H := stable_argsort)
              (table_BA ++ [unbranded "cuatro" 9]) 10) as [_ [Hs Ht]].
  split; [exact Hno|]. split; [exact (Hs Hno)|].
  split; [rewrite Ht; [reflexivity|vm_compute; lia]|].
  split; [exact Hint|].
  exact (proj1 (totalSold_groups (H := stable_argsort) table_big 10) Hint).
Defined.

(** ** Nothing left out of a ranking outranks what is in it *)

Lemma StronglySorted_app_inv {A} (R : A -> A -> Prop) (l1 l2 : list A) :
  StronglySorted R (l1 ++ l2) ->
  forall x y, In x l1 -> In y l2 -> R x y.
Proof.
  induction l1 as [|a l1 IH]; simpl; intros Hs x y Hx Hy; [destruct Hx|].
  apply StronglySorted_inv in Hs. destruct Hs as [Hs Ha].
  destruct Hx as [<-|Hx].
  - rewrite Forall_forall in Ha. apply Ha, in_app_iff. now right.
  - now apply IH.
Qed.

Lemma head_sort_values_top `{ArgSort} {A} (by_ : A -> Z) (l : list A) (n : nat) (x y : A) :
  In x (head n (sort_values_desc by_ l)) ->
  In y l ->
  ~ In y (head n (sort_values_desc by_ l)) ->
  by_ y <= by_ x.
Proof.
  unfold head. intros Hx Hy Hny.
  apply (Permutation_in _ (Permutation_sym (sort_values_desc_perm by_ l))) in Hy.
  rewrite <- (firstn_skipn n (sort_values_desc by_ l)) in Hy.
  apply in_app_iff in Hy. destruct Hy as [Hy|Hy]; [contradiction|].
  pose proof (sort_values_desc_sorted by_ l) as Hs.
  rewrite <- (firstn_skipn n (sort_values_desc by_ l)) in Hs.
  exact (StronglySorted_app_inv _ _ _ Hs x y Hx Hy).
Qed.

(** X14: no brand group left out of the brand ranking has a larger total
    than a group that is in it. *)
Theorem topBrandsByVolume_top `{ArgSort} (df : list Row) (limit : nat) (x y : str * Z) :
  In x (topBrandsByVolume df limit) ->
  In y (groupby_sum df) ->
  ~ In y (topBrandsByVolume df limit) ->
  snd y <= snd x.
Proof. apply head_sort_values_top. Qed.

Lemma topBrandsByVolume_top_witness :
  snd (lit "A", 3) <= snd (lit "C", 4).
Proof.
  apply (topBrandsByVolume_top (H := stable_argsort) table_ABC 2).
  - vm_compute. tauto.
  - vm_compute. tauto.
  - vm_compute. intros [E|[E|[]]]; discriminate E.
Defined.

(** X15: no listing of the brand left out of the product ranking sold more
    than a listing that is in it. *)
Theorem topProductsForBrand_top `{ArgSort} (df : list Row) (marca_sel : str)
        (limit : nat) (x y : Row) :
  In x (topProductsForBrand df marca_sel limit) ->
  In y df ->
  Marca y = Str marca_sel ->
  ~ In y (topProductsForBrand df marca_sel limit) ->
  Vendidos y <= Vendidos x.
Proof.
  unfold topProductsForBrand. rewrite boolean_index_filter.
  intros Hx Hy Hb Hny.
  apply (head_sort_values_top Vendidos _ limit x y Hx); [|exact Hny].
  apply filter_In. split; [exact Hy|].
  rewrite Hb. simpl. apply str_eqb_refl.
Qed.

Lemma topProductsForBrand_top_witness :
  Vendidos (listing "A" "uno" fzero 3) <= Vendidos (listing "A" "tres" fzero 4).
Proof.
  apply (topProductsForBrand_top (H := stable_argsort) table_A3 (lit "A") 2).
  - vm_compute. tauto.
  - vm_compute. tauto.
  - reflexivity.
  - vm_compute. intros [E|[E|[]]]; discriminate E.
Defined.

(** ** The brand selector *)

Lemma str_compare_refl (a : str) : str_compare a a = Eq.
Proof. now apply str_compare_eq. Qed.

Lemma str_le_trans (a b c : str) : str_le a b -> str_le b c -> str_le a c.
Proof.
  unfold str_le. intros Hab Hbc.
  destruct (str_compare a b) eqn:E1; [| |congruence].
  - apply str_compare_eq in E1. now subst.
  - destruct (str_compare b c) eqn:E2; [| |congruence].
    + apply str_compare_eq in E2. subst. now rewrite E1.
    + now rewrite (str_compare_lt_trans a b c E1 E2).
Qed.

Lemma insert_sorted_perm (x : str) (l : list str) :
  Permutation (insert_sorted x l) (x :: l).
Proof.
  induction l as [|y l IH]; simpl; [reflexivity|].
  destruct (str_compare x y); try reflexivity.
  rewrite IH. apply perm_swap.
Qed.

Lemma sorted_perm (l : list str) : Permutation (sorted l) l.
Proof.
  unfold sorted. induction l as [|x l IH]; simpl; [reflexivity|].
  rewrite insert_sorted_perm. now constructor.
Qed.

Lemma insert_sorted_sorted (x : str) (l : list str) :
  StronglySorted str_le l -> StronglySorted str_le (insert_sorted x l).
Proof.
  induction 1 as [|y l Hl IH Hy]; simpl; [repeat constructor|].
  assert (Hle : str_compare x y <> Gt ->
                StronglySorted str_le (x :: y :: l)).
  { intros Hxy. constructor; [now constructor|].
    constructor; [exact Hxy|].
    apply Forall_forall. intros z Hz. rewrite Forall_forall in Hy.
    apply (str_le_trans x y z Hxy). now apply Hy. }
  destruct (str_compare x y) eqn:E.
  - apply Hle. discriminate.
  - apply Hle. discriminate.
  - constructor; [exact IH|].
    apply Forall_forall. intros z Hz.
    apply (Permutation_in _ (insert_sorted_perm x l)) in Hz.
    destruct Hz as [<-|Hz].
    + unfold str_le. rewrite str_compare_antisym, E. discriminate.
    + rewrite Forall_forall in Hy. now apply Hy.
Qed.

Lemma sorted_sorted (l : list str) : StronglySorted str_le (sorted l).
Proof.
  unfold sorted. induction l as [|x l IH]; simpl; [constructor|].
  now apply insert_sorted_sorted.
Qed.

Lemma sorted_strict (l : list str) :
  NoDup l -> StronglySorted str_le l -> StronglySorted str_lt l.
Proof.
  intros Hnd Hs. induction Hs as [|x l Hl IH Hx]; [constructor|].
  inversion Hnd as [|? ? Hnotin Hnd']; subst.
  constructor; [now apply IH|].
  apply Forall_forall. intros y Hy. rewrite Forall_forall in Hx.
  specialize (Hx y Hy). unfold str_le, str_lt in *.
  destruct (str_compare x y) eqn:E; [|reflexivity|congruence].
  apply str_compare_eq in E. subst y. contradiction.
Qed.

Lemma In_unique (x : str) (l : list str) : In x (unique l) <-> In x l.
Proof.
  induction l as [|y l IH]; simpl; [tauto|].
  rewrite filter_In, IH, negb_true_iff, str_eqb_neq.
  destruct (str_eq_dec y x) as [->|Hne]; [tauto|].
  split; [tauto|]. intros [H|H]; [tauto|]. right. split; [exact H|congruence].
Qed.

Lemma NoDup_unique (l : list str) : NoDup (unique l).
Proof.
  induction l as [|y l IH]; simpl; constructor.
  - rewrite filter_In, negb_true_iff, str_eqb_neq. tauto.
  - now apply NoDup_filter.
Qed.

Lemma In_astype_str (s : str) (col : list cell) :
  In s (astype_str col) <-> In (Str s) col \/ (s = lit "nan" /\ In NA col).
Proof.
  unfold astype_str. rewrite in_map_iff. split.
  - intros [c [Hc Hin]]. destruct c as [|t]; simpl in Hc; subst.
    + right. now split.
    + now left.
  - intros [H|[-> H]].
    + now exists (Str s).
    + now exists NA.
Qed.

Lemma marcas_members (df : list Row) :
  StronglySorted str_lt (marcas df)
  /\ forall s, In s (marcas df)
               <-> In (Str s) (map Marca df)
                   \/ (s = lit "nan" /\ In NA (map Marca df)).
Proof.
  unfold marcas. split.
  - apply sorted_strict; [|apply sorted_sorted].
    apply (Permutation_NoDup (Permutation_sym (sorted_perm _))), NoDup_unique.
  - intros s. rewrite <- In_astype_str.
    rewrite <- (In_unique s (astype_str (map Marca df))). split.
    + apply Permutation_in, sorted_perm.
    + apply Permutation_in, Permutation_sym, sorted_perm.
Qed.

(** X16: the brands offered by the selectors come in strictly ascending
    order, so none twice; they are the brand texts of the table, and the
    text [nan] in addition when some row has no brand. *)
Theorem marcas_options (df : list Row) :
  StronglySorted str_lt (marcas df)
  /\ forall s, In s (marcas df)
               <-> In (Str s) (map Marca df)
                   \/ (s = lit "nan" /\ In NA (map Marca df)).
Proof. exact (marcas_members df). Qed.

Lemma marcas_options_witness :
  In (lit "nan") (marcas (table_BA ++ [unbranded "cuatro" 9])).
Proof.
  apply (proj2 (marcas_options (table_BA ++ [unbranded "cuatro" 9]))).
  right. split; [reflexivity|]. simpl. tauto.
Defined.

Lemma filter_brand_nil (df : list Row) (s : str) :
  filter (fun r => eq_str s (Marca r)) df = [] <-> ~ In (Str s) (map Marca df).
Proof.
  rewrite <- has_brand_In. unfold has_brand.
  induction df as [|r df IH]; simpl; [split; [discriminate|reflexivity]|].
  destruct (eq_str s (Marca r)); simpl.
  - split; [discriminate|]. intros H. now contradiction H.
  - exact IH.
Qed.

(** X17: the product ranking of a brand is empty exactly when no row
    bears that brand (or no row is asked for). The option [nan], which
    the select box offers as soon as a row has no brand, is such a brand
    unless a listing is literally branded [nan]: choosing it ranks
    nothing. *)
Theorem topProductsForBrand_empty `{ArgSort} (df : list Row) (marca_sel : str)
        (limit : nat) :
  (topProductsForBrand df marca_sel limit = []
   <-> limit = O \/ ~ In (Str marca_sel) (map Marca df))
  /\ (In NA (map Marca df) -> ~ In (Str (lit "nan")) (map Marca df) ->
      In (lit "nan") (selectbox_options df)
      /\ topProductsForBrand df (lit "nan") limit = []).
Proof.
  assert (Hempty : forall s, ~ In (Str s) (map Marca df) ->
                             topProductsForBrand df s limit = []).
  { intros s Hs. unfold topProductsForBrand, head.
    rewrite boolean_index_filter.
    apply filter_brand_nil in Hs. rewrite Hs.
    pose proof (sort_values_desc_perm Vendidos (@nil Row)) as Hp.
    apply Permutation_sym, Permutation_nil in Hp. rewrite Hp.
    now destruct limit. }
  split.
  - split.
    + intros E. destruct limit as [|n]; [now left|right].
      unfold topProductsForBrand, head in E. rewrite boolean_index_filter in E.
      apply filter_brand_nil.
      pose proof (sort_values_desc_perm Vendidos
                    (filter (fun r => eq_str marca_sel (Marca r)) df)) as Hp.
      destruct (sort_values_desc Vendidos _) as [|x l]; [|discriminate E].
      now apply Permutation_nil in Hp.
    + intros [->|Hs]; [reflexivity|now apply Hempty].
  - intros Hna Hnot. split; [|now apply Hempty].
    right. apply marcas_members. right. now split.
Qed.

Lemma topProductsForBrand_empty_witness :
  In (lit "nan") (selectbox_options (table_BA ++ [unbranded "cuatro" 9]))
  /\ topProductsForBrand (H := stable_argsort)
       (table_BA ++ [unbranded "cuatro" 9]) (lit "nan") 10 = [].
Proof.
  apply (proj2 (topProductsForBrand_empty (H := stable_argsort)
                  (table_BA ++ [unbranded "cuatro" 9]) (lit "nan") 10)).
  - simpl. tauto.
  - simpl. intros [E|[E|[E|[]]]]; discriminate E.
Defined.

(** ** The default selections *)

Lemma lookup_first_seen (k k0 : str) (v0 : Z) (g : list (str * Z)) :
  lookup k (acumular_first_seen k0 v0 g)
  = if str_eqb k k0
    then Some (match lookup k0 g with Some v' => v' + v0 | None => v0 end)
    else lookup k g.
Proof.
  induction g as [|[k' v'] g IH]; simpl; [reflexivity|].
  destruct (str_eqb k0 k') eqn:E0; simpl.
  - apply str_eqb_eq in E0. subst k'.
    destruct (str_eqb k k0); reflexivity.
  - rewrite IH. destruct (str_eqb k k') eqn:E1; [|reflexivity].
    apply str_eqb_eq in E1. subst k'.
    assert (E : str_eqb k k0 = false).
    { apply str_eqb_neq. apply str_eqb_neq in E0. congruence. }
    now rewrite E.
Qed.

Lemma first_seen_keys (k0 : str) (v0 : Z) (g : list (str * Z)) (k : str) :
  In k (map fst (acumular_first_seen k0 v0 g)) <-> k = k0 \/ In k (map fst g).
Proof.
  induction g as [|[k' v'] g IH]; simpl; [intuition congruence|].
  destruct (str_eqb k0 k') eqn:E0; simpl.
  - apply str_eqb_eq in E0. subst k'. intuition congruence.
  - rewrite IH. tauto.
Qed.

Lemma first_seen_NoDup (k0 : str) (v0 : Z) (g : list (str * Z)) :
  NoDup (map fst g) -> NoDup (map fst (acumular_first_seen k0 v0 g)).
Proof.
  induction g as [|[k' v'] g IH]; simpl; intros H.
  - repeat constructor. simpl. tauto.
  - inversion H as [|? ? Hnotin Hnd]; subst.
    destruct (str_eqb k0 k') eqn:E0; simpl.
    + now constructor.
    + constructor; [|now apply IH].
      rewrite first_seen_keys. apply str_eqb_neq in E0.
      intros [->|Hin]; [congruence|contradiction].
Qed.

Lemma In_lookup_NoDup (k : str) (v : Z) (g : list (str * Z)) :
  NoDup (map fst g) -> (In (k, v) g <-> lookup k g = Some v).
Proof.
  induction g as [|[k' v'] g IH]; simpl; intros H; [split; [tauto|discriminate]|].
  inversion H as [|? ? Hnotin Hnd]; subst.
  destruct (str_eqb k k') eqn:E.
  - apply str_eqb_eq in E. subst k'. split.
    + intros [[= ->]|Hin]; [reflexivity|].
      exfalso. apply Hnotin. now apply (in_map fst) in Hin.
    + intros [= ->]. now left.
  - rewrite <- (IH Hnd). apply str_eqb_neq in E. split.
    + intros [[= -> _]|Hin]; [congruence|exact Hin].
    + intros Hin. now right.
Qed.

Lemma occurrences_absent (k : str) (col : list cell) :
  existsb (eq_str k) col = false -> occurrences k col = 0.
Proof.
  unfold occurrences. induction col as [|c col IH]; simpl; [reflexivity|].
  intros H. apply orb_false_iff in H. destruct H as [H1 H2].
  rewrite H1. now apply IH.
Qed.

Lemma contar_counts (seen : list cell) (g : list (str * Z)) (c : cell) :
  counts_of seen g -> counts_of (seen ++ [c]) (contar g c).
Proof.
  intros [Hnd Hl]. unfold contar.
  assert (Hocc : forall k, occurrences k (seen ++ [c])
                           = occurrences k seen + (if eq_str k c then 1 else 0)).
  { intros k. unfold occurrences. rewrite filter_app, length_app. simpl.
    destruct (eq_str k c); simpl; lia. }
  destruct c as [|k0].
  - split; [exact Hnd|]. intros k.
    rewrite existsb_app, Hocc. simpl. rewrite orb_false_r, Z.add_0_r. apply Hl.
  - split; [now apply first_seen_NoDup|]. intros k.
    rewrite lookup_first_seen, existsb_app, Hocc. simpl.
    destruct (str_eqb k0 k) eqn:E.
    + apply str_eqb_eq in E. subst k0. rewrite str_eqb_refl, orb_true_r.
      rewrite Hl. destruct (existsb (eq_str k) seen) eqn:Hb; [reflexivity|].
      now rewrite (occurrences_absent k seen Hb).
    + assert (E' : str_eqb k k0 = false).
      { apply str_eqb_neq. apply str_eqb_neq in E. congruence. }
      rewrite E', !orb_false_r, Z.add_0_r. apply Hl.
Qed.

Lemma fold_contar_counts (col : list cell) : forall seen g,
  counts_of seen g -> counts_of (seen ++ col) (fold_left contar col g).
Proof.
  induction col as [|c col IH]; simpl; intros seen g H.
  - now rewrite app_nil_r.
  - replace (seen ++ c :: col) with ((seen ++ [c]) ++ col)
      by now rewrite <- app_assoc.
    apply IH. now apply contar_counts.
Qed.

Lemma existsb_eq_str (k : str) (col : list cell) :
  existsb (eq_str k) col = true <-> In (Str k) col.
Proof.
  rewrite existsb_exists. split.
  - intros [c [Hin Hc]]. destruct c as [|t]; simpl in Hc; [discriminate|].
    apply str_eqb_eq in Hc. now subst.
  - intros H. exists (Str k). split; [exact H|apply str_eqb_refl].
Qed.

Lemma value_counts_entries `{ArgSort} (col : list cell) :
  NoDup (map fst (value_counts col))
  /\ forall k v, In (k, v) (value_counts col)
                 <-> In (Str k) col /\ v = occurrences k col.
Proof.
  unfold value_counts.
  destruct (fold_contar_counts col [] []) as [Hnd Hl];
    [split; [constructor|reflexivity]|].
  simpl in Hnd, Hl.
  pose proof (sort_values_desc_perm snd (fold_left contar col [])) as Hp.
  split.
  - apply (Permutation_NoDup (Permutation_sym (Permutation_map fst Hp))), Hnd.
  - intros k v. split.
    + intros Hin. apply (Permutation_in _ Hp) in Hin.
      apply (In_lookup_NoDup k v _ Hnd) in Hin. rewrite Hl in Hin.
      destruct (existsb (eq_str k) col) eqn:E; [|discriminate].
      apply existsb_eq_str in E. injection Hin as <-. now split.
    + intros [Hin ->]. apply (Permutation_in _ (Permutation_sym Hp)).
      apply (In_lookup_NoDup k _ _ Hnd). rewrite Hl.
      apply existsb_eq_str in Hin. now rewrite Hin.
Qed.

Lemma NoDup_firstn {A} (n : nat) (l : list A) : NoDup l -> NoDup (firstn n l).
Proof.
  intros H. rewrite <- (firstn_skipn n l) in H. now apply NoDup_app_remove_r in H.
Qed.

(** X18: the brands the multiselects start with are among the options
    they offer; no brand is there twice, and there are at most [n]. *)
Theorem multiselect_default_options `{ArgSort} (df : list Row) (n : nat) :
  (forall b, In b (multiselect_default df n) -> In b (marcas df))
  /\ NoDup (multiselect_default df n)
  /\ (List.length (multiselect_default df n) <= n)%nat.
Proof.
  destruct (value_counts_entries (map Marca df)) as [Hnd Hv].
  unfold multiselect_default, head. split; [|split].
  - intros b Hb. apply in_map_iff in Hb. destruct Hb as [[k v] [<- Hin]].
    simpl. apply marcas_members. left.
    apply (Hv k v).
    rewrite <- (firstn_skipn n (value_counts (map Marca df))).
    apply in_app_iff. now left.
  - rewrite <- firstn_map. now apply NoDup_firstn.
  - rewrite length_map. apply firstn_le_length.
Qed.

Lemma multiselect_default_options_witness :
  In (lit "A") (marcas (table_BA ++ [unbranded "cuatro" 9])).
Proof.
  apply (proj1 (multiselect_default_options (H := stable_argsort)
                  (table_BA ++ [unbranded "cuatro" 9]) 5)).
  vm_compute. tauto.
Defined.

Lemma value_counts_length `{ArgSort} (col : list cell) :
  List.length (value_counts col) = nunique col.
Proof.
  destruct (value_counts_entries col) as [Hnd Hv].
  unfold nunique. rewrite <- (length_map fst).
  apply Permutation_length, NoDup_Permutation.
  - exact Hnd.
  - apply NoDup_nodup.
  - intros k. rewrite nodup_In, In_dropna, in_map_iff. split.
    + intros [[k' v] [Hk Hin]]. simpl in Hk. subst k'. now apply Hv in Hin.
    + intros Hin. exists (k, occurrences k col). split; [reflexivity|].
      apply Hv. now split.
Qed.

(** X19: the brands the multiselects start with are the [n] most frequent
    brands of the table, or all of its brands when it has no more than
    [n]: they are brands of the table, as many as [n] or as the table has
    brands, whichever is less, and a brand of the table that is not among
    them has no more listings than any brand that is. *)
Theorem multiselect_default_top `{ArgSort} (df : list Row) (n : nat) :
  List.length (multiselect_default df n) = Nat.min n (nunique (map Marca df))
  /\ (forall b, In b (multiselect_default df n) -> In (Str b) (map Marca df))
  /\ ((nunique (map Marca df) <= n)%nat ->
      forall c, In (Str c) (map Marca df) -> In c (multiselect_default df n))
  /\ (forall b c,
        In b (multiselect_default df n) ->
        In (Str c) (map Marca df) ->
        ~ In c (multiselect_default df n) ->
        occurrences c (map Marca df) <= occurrences b (map Marca df)).
Proof.
  destruct (value_counts_entries (map Marca df)) as [Hnd Hv].
  split; [|split; [|split]].
  { unfold multiselect_default, head.
    now rewrite length_map, length_firstn, value_counts_length. }
  { intros b Hb. unfold multiselect_default, head in Hb.
    apply in_map_iff in Hb. destruct Hb as [[k v] [Hk Hin]]. simpl in Hk. subst k.
    apply (Hv b v).
    rewrite <- (firstn_skipn n (value_counts (map Marca df))).
    apply in_app_iff. now left. }
  { intros Hn c Hc. unfold multiselect_default, head.
    rewrite firstn_all2 by now rewrite value_counts_length.
    apply in_map_iff. exists (c, occurrences c (map Marca df)).
    split; [reflexivity|]. apply Hv. now split. }
  unfold multiselect_default. intros b c Hb Hc Hnc.
  apply in_map_iff in Hb. destruct Hb as [[k v] [Hk Hin]]. simpl in Hk. subst k.
  assert (Hv' : v = occurrences b (map Marca df)).
  { apply (Hv b v). unfold head in Hin.
    rewrite <- (firstn_skipn n (value_counts (map Marca df))).
    apply in_app_iff. now left. }
  subst v.
  unfold value_counts in Hin, Hnc.
  apply (head_sort_values_top snd _ n
           (b, occurrences b (map Marca df)) (c, occurrences c (map Marca df)) Hin).
  - pose proof (sort_values_desc_perm snd (fold_left contar (map Marca df) [])) as Hp.
    apply (Permutation_in _ Hp). apply (Hv c). now split.
  - intros Hin'. apply Hnc. now apply (in_map fst) in Hin'.
Qed.

Lemma multiselect_default_top_witness :
  multiselect_default (H := stable_argsort) table_AAB 1 = [lit "A"]
  /\ List.length (multiselect_default (H := stable_argsort) table_AAB 1) = 1%nat
  /\ occurrences (lit "B") (map Marca table_AAB)
     <= occurrences (lit "A") (map Marca table_AAB).
Proof.
  split; [vm_compute; reflexivity|].
  destruct (multiselect_default_top (H := stable_argsort) table_AAB 1)
    as [Hl [_ [_ Ht]]].
  split; [exact Hl|].
  apply (Ht (lit "A") (lit "B")).
  - vm_compute. tauto.
  - vm_compute. tauto.
  - vm_compute. intros [E|[]]. discriminate E.
Defined.

(** ** The violin tab *)

(** X20: the violin tab warns instead of plotting exactly when no row is
    priced under 300; what it plots are the rows priced under 300, in
    table order; and a row whose price was cleaned to [0.0] is always
    among them. *)
Theorem tab3_view (df : list Row) :
  (tab3 df = violin_warning (lit "Sin datos suficientes.")
   <-> forall r, In r df -> SFltb (Precio r) ceiling_300 = false)
  /\ (forall df_clean, tab3 df = violin_plot df_clean ->
        df_clean = filter (fun r => SFltb (Precio r) ceiling_300) df
        /\ df_clean <> [])
  /\ (forall r, In r df -> Precio r = fzero ->
        exists df_clean, tab3 df = violin_plot df_clean /\ In r df_clean).
Proof.
  unfold tab3, filterByPriceCeiling. rewrite boolean_index_filter.
  set (f := fun r => SFltb (Precio r) ceiling_300).
  split; [|split].
  - split.
    + intros E r Hr. destruct (filter f df) as [|x l] eqn:Ef; [|discriminate E].
      destruct (f r) eqn:Er; [|exact Er].
      assert (Hin : In r (filter f df)) by now apply filter_In.
      rewrite Ef in Hin. destruct Hin.
    + intros Hall.
      assert (Ef : filter f df = []).
      { induction df as [|x l IH]; [reflexivity|]. simpl.
        replace (f x) with false by (symmetry; apply Hall; now left).
        apply IH. intros r Hr. apply Hall. now right. }
      now rewrite Ef.
  - intros df_clean E. destruct (filter f df) as [|x l]; [discriminate E|].
    injection E as <-. split; [reflexivity|discriminate].
  - intros r Hr Hp.
    assert (Hin : In r (filter f df)).
    { apply filter_In. split; [exact Hr|]. unfold f. now rewrite Hp. }
    destruct (filter f df) as [|x l]; [destruct Hin|].
    now exists (x :: l).
Qed.

Lemma tab3_view_witness :
  exists df_clean,
    tab3 (table_prices ++ [unbranded "cuatro" 9]) = violin_plot df_clean
    /\ In (unbranded "cuatro" 9) df_clean.
Proof.
  apply (proj2 (proj2 (tab3_view (table_prices ++ [unbranded "cuatro" 9])))).
  - simpl. tauto.
  - reflexivity.
Defined.

(** ** cargar_css *)

(** X21: a missing style sheet does not stop the script: [cargar_css]
    returns with one warning that names the file. It never lets a
    [FileNotFoundError] out; any other error of reading the file leaves it
    as it is; and a file that was read is passed on whole, between the
    two style tags. *)
Theorem cargar_css_outcomes (files : TextFiles) (archivo : str) :
  (files archivo = Raise FileNotFoundError ->
   cargar_css files archivo = Ok [st_warning (sin_estilos ++ archivo ++ lit "'.")])
  /\ cargar_css files archivo <> Raise FileNotFoundError
  /\ (forall e, e <> FileNotFoundError -> files archivo = Raise e ->
                cargar_css files archivo = Raise e)
  /\ (forall contenido, files archivo = Ok contenido ->
        exists body,
          cargar_css files archivo = Ok [st_markdown body true]
          /\ body = lit "<style>" ++ contenido ++ lit "</style>"
          /\ firstn (List.length contenido) (skipn 7 body) = contenido).
Proof.
  unfold cargar_css.
  destruct (files archivo) as [contenido|e] eqn:E; simpl.
  - split; [discriminate|]. split; [discriminate|]. split; [discriminate|].
    intros c [= <-]. eexists. split; [reflexivity|]. split; [reflexivity|].
    simpl. rewrite firstn_app, Nat.sub_diag, firstn_all. simpl.
    apply app_nil_r.
  - split; [now intros [= ->]|]. split; [destruct e; discriminate|].
    split; [|discriminate].
    intros e' Hne [= <-]. destruct e; simpl; congruence.
Qed.

Lemma cargar_css_outcomes_witness :
  cargar_css no_files (lit "estilo.css")
  = Ok [st_warning (sin_estilos ++ lit "estilo.css" ++ lit "'.")].
Proof.
  apply (proj1 (cargar_css_outcomes no_files (lit "estilo.css"))). reflexivity.
Defined.
